(** * Diagnostic reasoning engine of the AI Medical Diagnosis System

    A shallow embedding of the parts of [bayes_utils.py], [neo4j_utils.py]
    and [main.py] that the specification reasons about:
    - symptom normalisation ([s.strip().title()]) and the special-case key
      [_sym_key];
    - the disease matcher [diseases_by_symptoms] over a disease/symptom graph;
    - the special-case registry ([upsert_special_case_with_patient],
      [find_similar_special_cases]);
    - the conditional probability tables built by [build_model];
    - the inference loop of [diagnose_patient], the [is_unusual] test and the
      unusual-case branch of [main.diagnose_patient];
    - the mutually recursive audit helpers [_run] and [log_audit].

    Python strings are modelled as ASCII strings ([string]), which agree
    with Python's [str] methods on 7-bit characters; module [PyUnicode]
    models [_sym_key] over Unicode code points with the case tables as a
    parameter. Module [PyFloat] models IEEE doubles where a float enters
    integer arithmetic ([find_similar_special_cases]); probabilities that
    are only compared or normalised are modelled as exact rationals ([Q]).
    Calls that raise are modelled by [py_result] and [outcome]. *)

From Stdlib Require Import Ascii String ZArith QArith Qround Lia Lqa.
From stdpp Require Import base list gmap strings sorting.

Open Scope bool_scope.

(* ===================================================================== *)
(** * 1. Python string primitives on ASCII *)
(* ===================================================================== *)

Module PyStr.

(** [str.isspace] on one ASCII character: 9..13, 28..31 and the space. *)
Definition py_isspace (c : ascii) : bool :=
  let n := nat_of_ascii c in
  ((9 <=? n) && (n <=? 13)) || ((28 <=? n) && (n <=? 32)).

Definition is_upper (c : ascii) : bool :=
  let n := nat_of_ascii c in (65 <=? n) && (n <=? 90).
Definition is_lower (c : ascii) : bool :=
  let n := nat_of_ascii c in (97 <=? n) && (n <=? 122).
Definition is_cased (c : ascii) : bool := is_upper c || is_lower c.

Definition to_upper (c : ascii) : ascii :=
  if is_lower c then ascii_of_nat (nat_of_ascii c - 32) else c.
Definition to_lower (c : ascii) : ascii :=
  if is_upper c then ascii_of_nat (nat_of_ascii c + 32) else c.

(** Leading-whitespace removal; [str.strip()] strips both ends. *)
Fixpoint lstrip_l (l : list ascii) : list ascii :=
  match l with
  | [] => []
  | c :: l' => if py_isspace c then lstrip_l l' else l
  end.

Definition strip_l (l : list ascii) : list ascii :=
  rev (lstrip_l (rev (lstrip_l l))).

(** CPython's [do_title]: a character is lowered when the previous
    character was cased, and title-cased otherwise. *)
Fixpoint title_l (previous_is_cased : bool) (l : list ascii) : list ascii :=
  match l with
  | [] => []
  | c :: l' =>
      (if previous_is_cased then to_lower c else to_upper c)
        :: title_l (is_cased c) l'
  end.

Definition py_strip (s : string) : string :=
  string_of_list_ascii (strip_l (list_ascii_of_string s)).

Definition py_title (s : string) : string :=
  string_of_list_ascii (title_l false (list_ascii_of_string s)).

(** ["|".join(xs)] *)
Fixpoint join (sep : string) (xs : list string) : string :=
  match xs with
  | [] => ""
  | [x] => x
  | x :: xs' => String.append x (String.append sep (join sep xs'))
  end.

End PyStr.

Import PyStr.

(* ===================================================================== *)
(** * 1b. Python results and floats *)
(* ===================================================================== *)

(** The result of a Python expression: its value, or the exception that
    escapes it. *)
Inductive py_result (A : Type) :=
  | Ok (a : A)
  | Err (exn : string).
Arguments Ok {A} _.
Arguments Err {A} _.

Module PyFloat.

(** An IEEE-754 binary64 value: [Fin m e] is [m * 2^e]; the sign of zero is
    not kept (no computation below depends on it). *)
Inductive py_float :=
  | Fin (m : Z) (e : Z)
  | PInf
  | NInf
  | NaN.

(** Round-half-even of [a / 2^s] for [s > 0]. *)
Definition shr_round_even (a s : Z) : Z :=
  let q := Z.shiftr a s in
  let r := (a - q * 2 ^ s)%Z in
  let half := (2 ^ (s - 1))%Z in
  if (half <? r)%Z || ((r =? half)%Z && Z.odd q) then (q + 1)%Z else q.

(** [2^p <= q * 2^ex] *)
Definition dyadic_ge_pow2 (q ex p : Z) : bool :=
  if (0 <=? ex)%Z then (2 ^ p <=? q * 2 ^ ex)%Z else (2 ^ (p - ex) <=? q)%Z.

(** The double nearest to [M * 2^E] (ties to even): 53 significant bits,
    subnormals down to [2^-1074], and infinity from [2^1024] on. *)
Definition round_dyadic (M E : Z) : py_float :=
  if (M =? 0)%Z then Fin 0 0 else
  let a := Z.abs M in
  let s := Z.max (Z.log2 a + 1 - 53) (-1074 - E) in
  let q := if (s <=? 0)%Z then a else shr_round_even a s in
  let ex := if (s <=? 0)%Z then E else (E + s)%Z in
  if dyadic_ge_pow2 q ex 1024 then (if (0 <? M)%Z then PInf else NInf)
  else Fin (Z.sgn M * q) ex.

(** [float(n)] of an [int] ([PyLong_AsDouble]): rounded to nearest, and
    [OverflowError] when out of range. *)
Definition float_of_int (n : Z) : py_result py_float :=
  match round_dyadic n 0 with
  | Fin m e => Ok (Fin m e)
  | _ => Err "OverflowError"
  end.

(** [x * y] on floats. *)
Definition float_mul (x y : py_float) : py_float :=
  match x, y with
  | NaN, _ | _, NaN => NaN
  | Fin m1 e1, Fin m2 e2 => round_dyadic (m1 * m2) (e1 + e2)
  | Fin m _, PInf | PInf, Fin m _ =>
      if (m =? 0)%Z then NaN else if (0 <? m)%Z then PInf else NInf
  | Fin m _, NInf | NInf, Fin m _ =>
      if (m =? 0)%Z then NaN else if (0 <? m)%Z then NInf else PInf
  | PInf, PInf | NInf, NInf => PInf
  | PInf, NInf | NInf, PInf => NInf
  end.

(** [int(x)] on a float: truncation towards zero; [OverflowError] on an
    infinity and [ValueError] on a NaN. *)
Definition py_int (x : py_float) : py_result Z :=
  match x with
  | Fin m e => Ok (if (0 <=? e)%Z then m * 2 ^ e else Z.quot m (2 ^ (- e)))%Z
  | PInf | NInf => Err "OverflowError"
  | NaN => Err "ValueError"
  end.

(** [int(n * x)] for an [int] [n] and a float [x]: [n] is converted to a
    float and the product rounded. *)
Definition int_times_float (n : Z) (x : py_float) : py_result Z :=
  match float_of_int n with
  | Err e => Err e
  | Ok fn => py_int (float_mul fn x)
  end.

(** The value of a finite float. *)
Definition to_Q (x : py_float) : option Q :=
  match x with
  | Fin m e => Some (if (0 <=? e)%Z then inject_Z (m * 2 ^ e) else m # Z.to_pos (2 ^ (- e)))
  | _ => None
  end.

(** The literals [0.5], [0.58] and [0.7]. *)
Definition half : py_float := Fin 1 (-1).
Definition f0_58 : py_float := Fin 5224175567749775 (-53).
Definition f0_7 : py_float := Fin 3152519739159347 (-52).

End PyFloat.

Import PyFloat.

(* ===================================================================== *)
(** * 1c. Python strings over Unicode code points *)
(* ===================================================================== *)

Module PyUnicode.

(** A Python [str] as its list of code points. *)
Abbreviation ustr := (list Z).

(** The character properties of CPython's [unicodectype.c] that
    [str.strip], [str.title] and [str.casefold] read. *)
Record ucd := {
  u_isspace : Z -> bool;            (** [Py_UNICODE_ISSPACE] *)
  u_cased : Z -> bool;              (** [_PyUnicode_IsCased] *)
  u_case_ignorable : Z -> bool;     (** [_PyUnicode_IsCaseIgnorable] *)
  u_lower : Z -> list Z;            (** [_PyUnicode_ToLowerFull] *)
  u_title : Z -> list Z;            (** [_PyUnicode_ToTitleFull] *)
  u_fold : Z -> list Z              (** [_PyUnicode_ToFoldedFull] *)
}.

(** Python's comparison of strings: lexicographic on code points. *)
Fixpoint lex_leb (a b : ustr) : bool :=
  match a, b with
  | [], _ => true
  | _ :: _, [] => false
  | x :: a', y :: b' => (x <? y)%Z || ((x =? y)%Z && lex_leb a' b')
  end.

Definition lex_le (a b : ustr) : Prop := lex_leb a b = true.

#[export] Instance lex_le_dec : RelDecision lex_le :=
  fun a b => decide (lex_leb a b = true).

(** ["|".join(xs)] *)
Fixpoint join_bar (xs : list ustr) : ustr :=
  match xs with
  | [] => []
  | [x] => x
  | x :: xs' => x ++ [124%Z] ++ join_bar xs'
  end.

Section WithUcd.

Variable db : ucd.

Fixpoint lstrip (l : ustr) : ustr :=
  match l with
  | [] => []
  | c :: l' => if u_isspace db c then lstrip l' else l
  end.

(** [str.strip()] *)
Definition strip (l : ustr) : ustr := rev (lstrip (rev (lstrip l))).

(** The first character that is not case-ignorable. *)
Fixpoint skip_ignorable (l : ustr) : option Z :=
  match l with
  | [] => None
  | c :: l' => if u_case_ignorable db c then skip_ignorable l' else Some c
  end.

(** [handle_capital_sigma]: the capital sigma is in the Final_Sigma context
    when a cased character precedes it (across case-ignorable ones) and no
    cased character follows it (likewise); [before] holds the preceding
    characters, nearest first. *)
Definition final_sigma (before after : ustr) : bool :=
  match skip_ignorable before with
  | None => false
  | Some c =>
      u_cased db c &&
      match skip_ignorable after with
      | None => true
      | Some c' => negb (u_cased db c')
      end
  end.

(** [lower_ucs4] *)
Definition lower_ucs4 (c : Z) (before after : ustr) : list Z :=
  if (c =? 931)%Z then [if final_sigma before after then 962%Z else 963%Z]
  else u_lower db c.

(** [do_title]: a character is lowered when the previous character was
    cased, and title-cased otherwise. *)
Fixpoint title_go (previous_is_cased : bool) (before l : ustr) : ustr :=
  match l with
  | [] => []
  | c :: l' =>
      (if previous_is_cased then lower_ucs4 c before l' else u_title db c)
        ++ title_go (u_cased db c) (c :: before) l'
  end.

(** [str.title()] *)
Definition title (l : ustr) : ustr := title_go false [] l.

(** [str.casefold()] *)
Definition casefold (l : ustr) : ustr := flat_map (u_fold db) l.

Definition norm (s : ustr) : ustr := title (strip s).

Definition nonblank (s : ustr) : bool :=
  match strip s with [] => false | _ :: _ => true end.

(** [_sym_key]: ["|".join(sorted({s.strip().title() for s in symptoms if s.strip()}))] *)
Definition sym_key (symptoms : list ustr) : ustr :=
  join_bar (merge_sort lex_le (remove_dups (map norm (List.filter nonblank symptoms)))).

End WithUcd.

(** One row of the Unicode database. *)
Record ucd_row := mk_row {
  r_cp : Z; r_space : bool; r_cased : bool; r_ignorable : bool;
  r_lower : list Z; r_title : list Z; r_fold : list Z
}.

(** The rows, as Python 3 reports them, of the space, the ASCII letters,
    the Kelvin sign U+212A and the Greek letters alpha and sigma (capital,
    final and small). *)
Definition sample_rows : list ucd_row := [
   mk_row 32 true false false [32] [32] [32];
   mk_row 65 false true false [97] [65] [97];
   mk_row 66 false true false [98] [66] [98];
   mk_row 67 false true false [99] [67] [99];
   mk_row 68 false true false [100] [68] [100];
   mk_row 69 false true false [101] [69] [101];
   mk_row 70 false true false [102] [70] [102];
   mk_row 71 false true false [103] [71] [103];
   mk_row 72 false true false [104] [72] [104];
   mk_row 73 false true false [105] [73] [105];
   mk_row 74 false true false [106] [74] [106];
   mk_row 75 false true false [107] [75] [107];
   mk_row 76 false true false [108] [76] [108];
   mk_row 77 false true false [109] [77] [109];
   mk_row 78 false true false [110] [78] [110];
   mk_row 79 false true false [111] [79] [111];
   mk_row 80 false true false [112] [80] [112];
   mk_row 81 false true false [113] [81] [113];
   mk_row 82 false true false [114] [82] [114];
   mk_row 83 false true false [115] [83] [115];
   mk_row 84 false true false [116] [84] [116];
   mk_row 85 false true false [117] [85] [117];
   mk_row 86 false true false [118] [86] [118];
   mk_row 87 false true false [119] [87] [119];
   mk_row 88 false true false [120] [88] [120];
   mk_row 89 false true false [121] [89] [121];
   mk_row 90 false true false [122] [90] [122];
   mk_row 97 false true false [97] [65] [97];
   mk_row 98 false true false [98] [66] [98];
   mk_row 99 false true false [99] [67] [99];
   mk_row 100 false true false [100] [68] [100];
   mk_row 101 false true false [101] [69] [101];
   mk_row 102 false true false [102] [70] [102];
   mk_row 103 false true false [103] [71] [103];
   mk_row 104 false true false [104] [72] [104];
   mk_row 105 false true false [105] [73] [105];
   mk_row 106 false true false [106] [74] [106];
   mk_row 107 false true false [107] [75] [107];
   mk_row 108 false true false [108] [76] [108];
   mk_row 109 false true false [109] [77] [109];
   mk_row 110 false true false [110] [78] [110];
   mk_row 111 false true false [111] [79] [111];
   mk_row 112 false true false [112] [80] [112];
   mk_row 113 false true false [113] [81] [113];
   mk_row 114 false true false [114] [82] [114];
   mk_row 115 false true false [115] [83] [115];
   mk_row 116 false true false [116] [84] [116];
   mk_row 117 false true false [117] [85] [117];
   mk_row 118 false true false [118] [86] [118];
   mk_row 119 false true false [119] [87] [119];
   mk_row 120 false true false [120] [88] [120];
   mk_row 121 false true false [121] [89] [121];
   mk_row 122 false true false [122] [90] [122];
   mk_row 8490 false true false [107] [8490] [107];
   mk_row 913 false true false [945] [913] [945];
   mk_row 931 false true false [963] [931] [963];
   mk_row 945 false true false [945] [913] [945];
   mk_row 962 false true false [962] [931] [963];
   mk_row 963 false true false [963] [931] [963] ]%Z.

(** A database that holds the sample rows; other code points map to
    themselves and have no property. *)
Definition ucd_of_rows (rows : list ucd_row) : ucd :=
  let get {A} (f : ucd_row -> A) (d : A) (c : Z) : A :=
    match List.find (fun r => (r_cp r =? c)%Z) rows with
    | Some r => f r
    | None => d
    end in
  {| u_isspace := get r_space false;
     u_cased := get r_cased false;
     u_case_ignorable := get r_ignorable false;
     u_lower := fun c => get r_lower [c] c;
     u_title := fun c => get r_title [c] c;
     u_fold := fun c => get r_fold [c] c |}.

Definition sample_ucd : ucd := ucd_of_rows sample_rows.

(** Two databases agree on the code point [c]. *)
Definition agree (db db' : ucd) (c : Z) : Prop :=
  u_isspace db c = u_isspace db' c /\ u_cased db c = u_cased db' c /\
  u_case_ignorable db c = u_case_ignorable db' c /\ u_lower db c = u_lower db' c /\
  u_title db c = u_title db' c /\ u_fold db c = u_fold db' c.

(** [db] holds the sample rows. *)
Definition ucd_agrees (db : ucd) : Prop :=
  Forall (agree db sample_ucd) (map r_cp sample_rows).

(** The strings of the examples. *)
Definition kelvin_nee : ustr := [8490; 110; 101; 101]%Z.
Definition knee : ustr := [107; 110; 101; 101]%Z.
Definition alpha_sigma : ustr := [945; 963]%Z.
Definition ALPHA_SIGMA : ustr := [913; 931]%Z.

(** An ASCII string as its code points. *)
Definition of_ascii (s : string) : ustr :=
  map (fun a => Z.of_nat (nat_of_ascii a)) (list_ascii_of_string s).

End PyUnicode.

(* ===================================================================== *)
(** * 2. Symptom normalisation and the special-case key *)
(* ===================================================================== *)

(** [s.strip().title()] *)
Definition norm (s : string) : string := py_title (py_strip s).

(** The filter [if s.strip()]: the stripped string is non-empty. *)
Definition nonblank (s : string) : bool :=
  match strip_l (list_ascii_of_string s) with
  | [] => false
  | _ => true
  end.

(** [{s.strip().title() for s in symptoms if s.strip()}]: the set is kept
    as a duplicate-free list; its iteration order is immaterial. *)
Definition sym_set (symptoms : list string) : list string :=
  remove_dups (map norm (List.filter nonblank symptoms)).

(** [sorted(...)] on distinct strings: the code-point order of [String.le]. *)
Definition canonical (symptoms : list string) : list string :=
  merge_sort String.le (sym_set symptoms).

(** [_sym_key]: ["|".join(sorted({s.strip().title() for s in symptoms if s.strip()}))] *)
Definition sym_key (symptoms : list string) : string :=
  join "|" (canonical symptoms).

(** Two symptom names that differ only in letter case. *)
Definition case_variant (x y : string) : Prop :=
  map to_lower (list_ascii_of_string x) = map to_lower (list_ascii_of_string y).

(** Two symptom lists describing the same symptom set up to order,
    repetition and letter case (blank entries are ignored by the code). *)
Definition same_symptom_set (L1 L2 : list string) : Prop :=
  (forall x, In x L1 -> nonblank x = true -> exists y, In y L2 /\ case_variant x y) /\
  (forall y, In y L2 -> nonblank y = true -> exists x, In x L1 /\ case_variant y x).

(** Every character of every string of the list is 7-bit ASCII, where
    the character functions above are those of Python's [str]. *)
Definition ascii7 (L : list string) : Prop :=
  Forall (fun s => Forall (fun a => nat_of_ascii a < 128) (list_ascii_of_string s)) L.

(** Every ASCII character, for the character-level facts checked below. *)
Definition all_ascii : list ascii := map ascii_of_nat (seq 0 256).

(* ===================================================================== *)
(** * 3. The disease matcher [diseases_by_symptoms] *)
(* ===================================================================== *)

(** A [Disease] node with the names of the [Symptom] nodes it reaches by
    [HAS_SYMPTOM] edges. *)
Record disease_node := { d_name : string; d_symptoms : list string }.

(** [sympts = [s.strip().title() for s in symptoms if s.strip()]]
    (duplicates are kept). *)
Definition sympts_of (symptoms : list string) : list string :=
  map norm (List.filter nonblank symptoms).

(** [collect(DISTINCT s.name)] over the matched [HAS_SYMPTOM] edges of [d]
    whose symptom name is [IN $symptoms]. *)
Definition found (sympts : list string) (d : disease_node) : list string :=
  remove_dups (List.filter (fun s => bool_decide (s ∈ sympts)) (d_symptoms d)).

(** The Cypher query: a disease takes part in the aggregation only when it
    has at least one matched edge, and is kept when [size(found) >= $needed]. *)
Definition match_query (g : list disease_node) (sympts : list string) (needed : Z)
    : list string :=
  map d_name (List.filter (fun d =>
    negb (bool_decide (found sympts d = [])) &&
    (needed <=? Z.of_nat (length (found sympts d))))%Z g).

(** [diseases_by_symptoms(symptoms, min_matches)] against a store that
    answers the query; [None] is Python's [None]. *)
Definition diseases_by_symptoms (g : list disease_node) (symptoms : list string)
    (min_matches : option Z) : list string :=
  let sympts := sympts_of symptoms in
  match sympts with
  | [] => []
  | _ :: _ =>
      let needed := match min_matches with
                    | None => Z.of_nat (length sympts)
                    | Some m => Z.max 1 m
                    end in
      match_query g sympts needed
  end.

(** Two diseases of the specification's examples. *)
Definition flu : disease_node := {| d_name := "Flu"; d_symptoms := ["Fever"; "Cough"] |}.
Definition covid : disease_node :=
  {| d_name := "COVID-19"; d_symptoms := ["Fever"; "Cough"; "Loss Of Smell"] |}.

(* ===================================================================== *)
(** * 4. The special-case registry *)
(* ===================================================================== *)

(** A [SpecialCase] node.  [b_patients] is [None] when the property is
    absent (Cypher [null]); [b_edges] are the symptom names reached by its
    [HAS_SYMPTOM] edges. *)
Record bundle := {
  b_sym_key : string;
  b_symptoms : list string;
  b_first_seen : Z;
  b_last_seen : option Z;
  b_hits : Z;
  b_patients : option (list string);
  b_edges : list string
}.

(** The [SpecialCase] nodes, identified by their [sym_key]. *)
Abbreviation registry := (gmap string bundle).

(** [UNWIND $symptoms AS name ... MERGE (c)-[:HAS_SYMPTOM]->(s)]. *)
Definition merge_edges (es names : list string) : list string :=
  fold_left (fun es n => if bool_decide (n ∈ es) then es else es ++ [n]) names es.

Definition set_edges (c : bundle) (es : list string) : bundle :=
  {| b_sym_key := b_sym_key c; b_symptoms := b_symptoms c;
     b_first_seen := b_first_seen c; b_last_seen := b_last_seen c;
     b_hits := b_hits c; b_patients := b_patients c; b_edges := es |}.

(** The [MERGE ... ON CREATE SET ... ON MATCH SET ...] part of the query of
    [upsert_special_case_with_patient]; [CASE WHEN $patient IN c.patients]
    on a [null] list falls to [ELSE c.patients + [$patient]], which is
    [null] again. *)
Definition merged_bundle (reg : registry) (key : string) (sympts : list string)
    (patient : string) (ts : Z) : bundle :=
  match reg !! key with
  | None =>
      {| b_sym_key := key; b_symptoms := sympts; b_first_seen := ts;
         b_last_seen := None; b_hits := 1; b_patients := Some [patient];
         b_edges := [] |}
  | Some c =>
      {| b_sym_key := b_sym_key c; b_symptoms := b_symptoms c;
         b_first_seen := b_first_seen c; b_last_seen := Some ts;
         b_hits := b_hits c + 1;
         b_patients :=
           match b_patients c with
           | None => None
           | Some ps => Some (if bool_decide (patient ∈ ps) then ps else ps ++ [patient])
           end;
         b_edges := b_edges c |}
  end.

(** [upsert_special_case_with_patient(symptoms, patient_name)] at time
    [ts] against a store that answers: the new registry and the returned
    case ([None] when [UNWIND] over an empty symptom list yields no row). *)
Definition upsert_special_case_with_patient (reg : registry) (symptoms : list string)
    (patient_name : string) (ts : Z) : registry * option bundle :=
  let key := sym_key symptoms in
  let sympts := sym_set symptoms in
  let c := merged_bundle reg key sympts patient_name ts in
  let c := set_edges c (merge_edges (b_edges c) sympts) in
  (<[key := c]> reg, match sympts with [] => None | _ :: _ => Some c end).

(** A sequence of upserts of one symptom list, the patient name alternating
    between [a] (first) and [b], one call per timestamp of [sched]. *)
Fixpoint upsert_alternating (reg : registry) (symptoms : list string) (a b : string)
    (sched : list Z) : registry :=
  match sched with
  | [] => reg
  | t :: sched' =>
      upsert_alternating (fst (upsert_special_case_with_patient reg symptoms a t))
        symptoms b a sched'
  end.

(** [collect(DISTINCT s.name) AS matched_symptoms] of a [SpecialCase] over
    its [HAS_SYMPTOM] edges whose symptom name is [IN $symptoms]. *)
Definition matched (sympts : list string) (c : bundle) : list string :=
  remove_dups (List.filter (fun s => bool_decide (s ∈ sympts)) (b_edges c)).

(** [ORDER BY size(matched_symptoms) DESC] *)
Definition by_overlap_desc (r1 r2 : bundle * list string) : Prop :=
  length (snd r2) <= length (snd r1).

#[export] Instance by_overlap_desc_dec : RelDecision by_overlap_desc :=
  fun r1 r2 => decide (length (snd r2) <= length (snd r1)).

(** [find_similar_special_cases(symptoms, similarity_threshold)] against a
    store that answers; each result is the case with its matched symptoms.
    [min_matches = max(1, int(len(sympts) * similarity_threshold))] is
    computed before the [try] block, so its [OverflowError] or [ValueError]
    escapes. *)
Definition find_similar_special_cases (reg : registry) (symptoms : list string)
    (similarity_threshold : py_float) : py_result (list (bundle * list string)) :=
  let sympts := sym_set symptoms in
  match int_times_float (Z.of_nat (length sympts)) similarity_threshold with
  | Err e => Err e
  | Ok k =>
      let min_matches := Z.max 1 k in
      Ok (merge_sort by_overlap_desc
            (List.filter (fun r => negb (bool_decide (snd r = [])) &&
                                   (min_matches <=? Z.of_nat (length (snd r)))%Z)
               (map (fun kc => (snd kc, matched sympts (snd kc))) (map_to_list reg))))
  end.

(** A registry holding the single bundle created for the symptom list
    [["Fever"]]. *)
Definition fever_registry : registry :=
  fst (upsert_special_case_with_patient ∅ ["Fever"] "Ann" 0).

(* ===================================================================== *)
(** * 5. Conditional probability tables of [build_model] *)
(* ===================================================================== *)

(** [MIN_PROB] (settings default [0.01]). *)
Definition MIN_PROB : Q := 1 # 100.

(** Python's [max(a, b)]: [b] replaces [a] only when [b > a]. *)
Definition py_max (a b : Q) : Q := if Qle_bool b a then a else b.

(** The override table [symptom_probabilities.json]:
    disease -> ("base_prob" | symptom) -> probability. *)
Abbreviation prob_table := (gmap string (gmap string Q)).

(** [probs.get(dis, {})] *)
Definition disease_probs (probs : prob_table) (dis : string) : gmap string Q :=
  default ∅ (probs !! dis).

(** [bits = [(i >> j) & 1 for j in reversed(range(len(syms)))]] *)
Definition bits (n : nat) (i : Z) : list Z :=
  map (fun j => Z.land (Z.shiftr i (Z.of_nat j)) 1) (rev (seq 0 n)).

(** The inner loop: [p_true] starts at [base_prob] (default [MIN_PROB]) and
    is raised with [max] for every present symptom, whose override
    defaults to [0.8]. *)
Definition row_p_true (probs : prob_table) (dis : string) (syms : list string)
    (bs : list Z) : Q :=
  fold_left (fun p bsym =>
      let '(b, sym) := bsym in
      if Z.eqb b 1 then py_max p (default (4 # 5) (disease_probs probs dis !! sym)) else p)
    (combine bs syms)
    (default MIN_PROB (disease_probs probs dis !! "base_prob"%string)).

(** [row_true] and [row_false] over [i in range(2 ** len(syms))]. *)
Definition row_true (probs : prob_table) (dis : string) (syms : list string) : list Q :=
  map (fun i => row_p_true probs dis syms (bits (length syms) (Z.of_nat i)))
    (seq 0 (2 ^ length syms)).

Definition row_false (probs : prob_table) (dis : string) (syms : list string) : list Q :=
  map (fun i => (1 - row_p_true probs dis syms (bits (length syms) (Z.of_nat i)))%Q)
    (seq 0 (2 ^ length syms)).

(** A [TabularCPD(variable, 2, values, evidence, evidence_card)]. *)
Record tabular_cpd := {
  cpd_variable : string;
  cpd_values : list (list Q);
  cpd_evidence : list string
}.

(** The disease CPDs of [build_model], one per entry of the mapping
    returned by [_fetch_graph] (disease name, its symptom names). *)
Definition disease_cpds (probs : prob_table) (mapping : list (string * list string))
    : list tabular_cpd :=
  map (fun ds =>
         let '(dis, syms) := ds in
         {| cpd_variable := dis;
            cpd_values := [row_false probs dis syms; row_true probs dis syms];
            cpd_evidence := syms |}) mapping.

(** The presence pattern of row [i]: symptom [k] of [syms] is present when
    its bit is 1. *)
Definition row_pattern (n i : nat) : list bool :=
  map (fun b => Z.eqb b 1) (bits n (Z.of_nat i)).

(** The probabilities that the rule takes the maximum of for a presence
    pattern: the base probability and the override of each present symptom. *)
Definition rule_candidates (probs : prob_table) (dis : string) (syms : list string)
    (c : list bool) : list Q :=
  default MIN_PROB (disease_probs probs dis !! "base_prob"%string)
  :: map (fun sym => default (4 # 5) (disease_probs probs dis !! sym))
         (map snd (List.filter fst (combine c syms))).

(** The binary number, most significant bit first, of a presence pattern. *)
Fixpoint enc (c : list bool) : Z :=
  match c with
  | [] => 0
  | b :: c' => Z.b2z b * 2 ^ Z.of_nat (length c') + enc c'
  end.

(** The bits of [x] read from bit [n-1] down to bit 0. *)
Definition pat (n : nat) (x : Z) : list bool :=
  map (fun j => Z.testbit x (Z.of_nat j)) (rev (seq 0 n)).

(* ===================================================================== *)
(** * 6. Inference, the unusual-case test and the diagnosis attempts *)
(* ===================================================================== *)

(** A Python dict from disease names to probabilities, in insertion order. *)
Abbreviation prob_dict := (list (string * Q)).

(** [d[k] = v]: an existing key keeps its position. *)
Fixpoint dict_set (d : prob_dict) (k : string) (v : Q) : prob_dict :=
  match d with
  | [] => [(k, v)]
  | (k', v') :: d' => if String.eqb k k' then (k', v) :: d' else (k', v') :: dict_set d' k v
  end.

(** [d.get(k)] *)
Fixpoint dict_get (d : prob_dict) (k : string) : option Q :=
  match d with
  | [] => None
  | (k', v') :: d' => if String.eqb k k' then Some v' else dict_get d' k
  end.

(** [UNUSUAL_THRESH] (settings default [0.15]). *)
Definition UNUSUAL_THRESH : Q := 15 # 100.

(** [is_unusual]: [all(p < UNUSUAL_THRESH for p in prob_dict.values())]. *)
Definition is_unusual (prob_dict : prob_dict) : bool :=
  forallb (fun kv => negb (Qle_bool UNUSUAL_THRESH (snd kv))) prob_dict.

(** A compiled model as far as inference sees it: its variables and the
    posterior [P(disease = 1 | evidence)] that variable elimination computes. *)
Record compiled_model := {
  m_variables : list string;
  m_posterior : list string -> string -> Q
}.

(** A pgmpy [DiscreteFactor]: its variables and its values. *)
Record discrete_factor := {
  f_variables : list string;
  f_values : list Q
}.

(** [infer.query(variables=[disease], evidence=evidence)] of pgmpy's
    [VariableElimination], with [evidence] the keys of the evidence dict:
    [ValueError] when [disease] is also evidence, or when [disease] or an
    evidence variable is not a node of the model; otherwise the factor over
    [disease] ([joint=True]). *)
Definition query (m : compiled_model) (evidence : list string) (disease : string)
    : py_result discrete_factor :=
  if negb (bool_decide (disease ∈ evidence)) &&
     bool_decide (disease ∈ m_variables m) &&
     forallb (fun s => bool_decide (s ∈ m_variables m)) evidence
  then Ok {| f_variables := [disease];
             f_values := [1 - m_posterior m evidence disease; m_posterior m evidence disease]%Q |}
  else Err "ValueError".

(** [factor[key]]: [DiscreteFactor] defines no [__getitem__], so the
    subscript raises [TypeError] whatever the key. *)
Definition factor_subscript (f : discrete_factor) (key : string) : py_result discrete_factor :=
  Err "TypeError".

(** [round(float(prob), 4)], ties rounded up. *)
Definition round4 (q : Q) : Q := inject_Z (Qfloor (q * 10000 + (1 # 2))) / 10000.

(** The loop [for disease in diseases: prob = infer.query(...)[disease].values[1];
    result[disease] = round(float(prob), 4)] of [bayes_utils.diagnose_patient]. *)
Fixpoint infer_loop (m : compiled_model) (evidence : list string)
    (diseases : list string) (result : prob_dict) : py_result prob_dict :=
  match diseases with
  | [] => Ok result
  | d :: ds =>
      match query m evidence d with
      | Err e => Err e
      | Ok f =>
          match factor_subscript f d with
          | Err e => Err e
          | Ok f' =>
              infer_loop m evidence ds (dict_set result d (round4 (nth 1 (f_values f') 0%Q)))
          end
      end
  end.

(** [max(result, key=result.get)]: the first key of largest value. *)
Definition py_argmax (d : prob_dict) : option string :=
  match d with
  | [] => None
  | kv :: d' =>
      Some (fst (fold_left (fun best kv => if Qle_bool (snd kv) (snd best) then best else kv)
                  d' kv))
  end.

(* ===================================================================== *)
(** * 7. Query execution and audit logging *)
(* ===================================================================== *)

(** The writes issued through [_run]: an [:Audit] record, the
    [:AuditError] fallback record, or an operation's own query. *)
Inductive query_kind :=
  | QAudit (action : string)
  | QAuditError
  | QOp (name : string).

(** The outcome of a Python call: it returns, or an exception escapes it. *)
Inductive outcome :=
  | Returned
  | Raised (exn : string).

(** The written records, oldest first. *)
Abbreviation store := (list query_kind).

(** [_run] and [log_audit]. [accepts q] says whether the database accepts
    the write [q]; [depth] is the number of Python frames still available
    before [RecursionError]. A call of [_run] whose write fails prints the
    error and calls [log_audit("QUERY_ERROR", ...)]; [log_audit] runs the
    [:Audit] write and, if that raises, the [:AuditError] write. *)
Fixpoint run_ (depth : nat) (accepts : query_kind -> bool) (q : query_kind)
    (st : store) : outcome * store :=
  match depth with
  | O => (Raised "RecursionError", st)
  | S d =>
      if accepts q then (Returned, st ++ [q])
      else log_audit d accepts "QUERY_ERROR" st
  end
with log_audit (depth : nat) (accepts : query_kind -> bool) (action : string)
    (st : store) : outcome * store :=
  match depth with
  | O => (Raised "RecursionError", st)
  | S d =>
      match run_ d accepts (QAudit action) st with
      | (Returned, st') => (Returned, st')
      | (Raised _, st') => run_ d accepts QAuditError st'
      end
  end.

(** [merge_symptom(name)]: the [MERGE] then its audit event, and
    [log_audit("MERGE_SYMPTOM_ERROR", ...)] if either raises. *)
Definition merge_symptom (depth : nat) (accepts : query_kind -> bool) (name : string)
    (st : store) : outcome * store :=
  match depth with
  | O => (Raised "RecursionError", st)
  | S d =>
      match run_ d accepts (QOp name) st with
      | (Returned, st1) =>
          match log_audit d accepts "MERGE_SYMPTOM" st1 with
          | (Returned, st2) => (Returned, st2)
          | (Raised _, st2) => log_audit d accepts "MERGE_SYMPTOM_ERROR" st2
          end
      | (Raised _, st1) => log_audit d accepts "MERGE_SYMPTOM_ERROR" st1
      end
  end.

(** A database that accepts the operations' own writes and refuses every
    audit record. *)
Definition audit_sink_down (q : query_kind) : bool :=
  match q with QOp _ => true | _ => false end.

(** A database that accepts every write. *)
Definition all_up (q : query_kind) : bool := true.

(** The match step of [bayes_utils.diagnose_patient]: [diseases_by_symptoms]
    with the chosen [min_matches], falling back to [min_matches = 2] when the
    strict search ([None]) is empty. *)
Definition match_step (g : list disease_node) (syms : list string)
    (min_matches : option Z) : list string :=
  match diseases_by_symptoms g syms min_matches, min_matches with
  | [], None => diseases_by_symptoms g syms (Some 2%Z)
  | diseases, _ => diseases
  end.


(* ===================================================================== *)
(** * 8. The knowledge graph and the write operations of [neo4j_utils] *)
(* ===================================================================== *)

(** The store that the operations of [neo4j_utils] read and write, for a
    database that accepts every write. Nodes are identified by their [name]
    (every node is created by [MERGE] on it). *)
Record graph := {
  g_diseases : list string;                      (** [Disease] nodes *)
  g_symptoms : list string;                      (** [Symptom] nodes *)
  g_edges : list (string * string);              (** [(d)-[:HAS_SYMPTOM]->(s)] *)
  g_persons : list (string * string);            (** [Person] nodes and their [role] *)
  g_diagnoses : list ((string * string) * (Q * Z));
    (** [(p)-[r:DIAGNOSED_WITH]->(d)] with [r.confidence] and [r.ts] *)
  g_cases : registry;                            (** [SpecialCase] nodes *)
  g_audit : list string                          (** the [action] of each [Audit] node *)
}.

(** The empty database. *)
Definition empty_graph : graph :=
  {| g_diseases := []; g_symptoms := []; g_edges := []; g_persons := [];
     g_diagnoses := []; g_cases := ∅; g_audit := [] |}.

(** An association list read as a map. *)
Fixpoint assoc_get {K V} `{EqDecision K} (l : list (K * V)) (k : K) : option V :=
  match l with
  | [] => None
  | (k', v) :: l' => if bool_decide (k = k') then Some v else assoc_get l' k
  end.

(** Setting a key of an association list in place, or appending it. *)
Fixpoint assoc_set {K V} `{EqDecision K} (l : list (K * V)) (k : K) (v : V) : list (K * V) :=
  match l with
  | [] => [(k, v)]
  | (k', v') :: l' => if bool_decide (k = k') then (k', v) :: l' else (k', v') :: assoc_set l' k v
  end.

Module Graph.

(** [MERGE] of a node or an edge identified by [x]. *)
Definition merge_name {A} `{EqDecision A} (l : list A) (x : A) : list A :=
  if bool_decide (x ∈ l) then l else l ++ [x].

(** [log_audit(action, ...)], the [:Audit] write succeeding. *)
Definition log_audit (g : graph) (action : string) : graph :=
  {| g_diseases := g_diseases g; g_symptoms := g_symptoms g; g_edges := g_edges g;
     g_persons := g_persons g; g_diagnoses := g_diagnoses g; g_cases := g_cases g;
     g_audit := g_audit g ++ [action] |}.

(** [merge_symptom(name)] *)
Definition merge_symptom (g : graph) (name : string) : graph :=
  log_audit
    {| g_diseases := g_diseases g; g_symptoms := merge_name (g_symptoms g) name;
       g_edges := g_edges g; g_persons := g_persons g; g_diagnoses := g_diagnoses g;
       g_cases := g_cases g; g_audit := g_audit g |}
    "MERGE_SYMPTOM".

(** [merge_disease(name)] as [load] calls it, with no extra attributes
    ([SET d += {}] changes nothing). *)
Definition merge_disease (g : graph) (name : string) : graph :=
  log_audit
    {| g_diseases := merge_name (g_diseases g) name; g_symptoms := g_symptoms g;
       g_edges := g_edges g; g_persons := g_persons g; g_diagnoses := g_diagnoses g;
       g_cases := g_cases g; g_audit := g_audit g |}
    "MERGE_DISEASE".

(** [connect_disease_symptom(disease, symptom)]: the [MATCH] of both nodes
    yields no row when one is missing, and then nothing is merged. *)
Definition connect_disease_symptom (g : graph) (disease symptom : string) : graph :=
  log_audit
    (if bool_decide (disease ∈ g_diseases g) && bool_decide (symptom ∈ g_symptoms g)
     then {| g_diseases := g_diseases g; g_symptoms := g_symptoms g;
             g_edges := merge_name (g_edges g) (disease, symptom);
             g_persons := g_persons g; g_diagnoses := g_diagnoses g;
             g_cases := g_cases g; g_audit := g_audit g |}
     else g)
    "CONNECT_DISEASE_SYMPTOM".

(** [merge_person(name, role)]: [ON CREATE SET p.role=$role], and
    [ON MATCH SET p.role=coalesce(p.role,$role)], which keeps the role a
    [Person] node was created with. *)
Definition merge_person (g : graph) (name role : string) : graph :=
  log_audit
    {| g_diseases := g_diseases g; g_symptoms := g_symptoms g; g_edges := g_edges g;
       g_persons :=
         match assoc_get (g_persons g) name with
         | Some _ => g_persons g
         | None => g_persons g ++ [(name, role)]
         end;
       g_diagnoses := g_diagnoses g; g_cases := g_cases g; g_audit := g_audit g |}
    "MERGE_PERSON".

(** [create_diagnosis(person, disease, confidence)] at time [ts]: the
    [MATCH] of both nodes, then [MERGE] of the edge and [SET] of its
    properties. *)
Definition create_diagnosis (g : graph) (person disease : string) (confidence : Q)
    (ts : Z) : graph :=
  log_audit
    (if bool_decide (person ∈ map fst (g_persons g)) && bool_decide (disease ∈ g_diseases g)
     then {| g_diseases := g_diseases g; g_symptoms := g_symptoms g; g_edges := g_edges g;
             g_persons := g_persons g;
             g_diagnoses := assoc_set (g_diagnoses g) (person, disease) (confidence, ts);
             g_cases := g_cases g; g_audit := g_audit g |}
     else g)
    "CREATE_DIAGNOSIS".


(** [get_known_symptoms()]; [query_ok = false] is a failing
    [MATCH (s:Symptom)] query, whose error is audited. *)
Definition get_known_symptoms (g : graph) (query_ok : bool) : list string * graph :=
  if query_ok then (g_symptoms g, g)
  else ([], log_audit g "GET_KNOWN_SYMPTOMS_ERROR").

(** [find_unknown_symptoms(symptoms)] *)
Definition find_unknown_symptoms (g : graph) (query_ok : bool) (symptoms : list string)
    : list string * graph :=
  let '(known, g') := get_known_symptoms g query_ok in
  (List.filter (fun s => negb (bool_decide (s ∈ known))) symptoms, g').

(** [upsert_special_case_with_patient(symptoms, patient_name)] at time [ts]:
    the registry update of section 4, and [MERGE (s:Symptom {name:name})]
    for every symptom of the bundle. *)
Definition upsert_special_case_with_patient (g : graph) (symptoms : list string)
    (patient_name : string) (ts : Z) : graph * option bundle :=
  let '(reg, c) := upsert_special_case_with_patient (g_cases g) symptoms patient_name ts in
  (log_audit
     {| g_diseases := g_diseases g;
        g_symptoms := fold_left merge_name (sym_set symptoms) (g_symptoms g);
        g_edges := g_edges g; g_persons := g_persons g; g_diagnoses := g_diagnoses g;
        g_cases := reg; g_audit := g_audit g |}
     "UPSERT_SPECIAL_CASE_WITH_PATIENT",
   c).

(** The [MERGE ... ON CREATE SET ... ON MATCH SET ...] part of the query of
    [upsert_special_case]: it sets no [patients] property. *)
Definition merged_case (reg : registry) (key : string) (sympts : list string) (ts : Z)
    : bundle :=
  match reg !! key with
  | None =>
      {| b_sym_key := key; b_symptoms := sympts; b_first_seen := ts;
         b_last_seen := None; b_hits := 1; b_patients := None; b_edges := [] |}
  | Some c =>
      {| b_sym_key := b_sym_key c; b_symptoms := b_symptoms c;
         b_first_seen := b_first_seen c; b_last_seen := Some ts;
         b_hits := b_hits c + 1; b_patients := b_patients c; b_edges := b_edges c |}
  end.

(** [upsert_special_case(symptoms)] at time [ts]: [UNWIND $symptoms AS name
    MATCH (s:Symptom {name:name})] keeps one row per symptom that is already
    a node, each row merges an edge, and [.single()] gives the case of the
    first row, or [None] when there is no row. *)
Definition upsert_special_case (g : graph) (symptoms : list string) (ts : Z)
    : graph * option bundle :=
  let key := sym_key symptoms in
  let sympts := sym_set symptoms in
  let linked := List.filter (fun n => bool_decide (n ∈ g_symptoms g)) sympts in
  let c := merged_case (g_cases g) key sympts ts in
  let c := set_edges c (merge_edges (b_edges c) linked) in
  (log_audit
     {| g_diseases := g_diseases g; g_symptoms := g_symptoms g; g_edges := g_edges g;
        g_persons := g_persons g; g_diagnoses := g_diagnoses g;
        g_cases := <[key := c]> (g_cases g); g_audit := g_audit g |}
     "UPSERT_SPECIAL_CASE",
   match linked with [] => None | _ :: _ => Some c end).

(** [find_special_case(symptoms)] *)
Definition find_special_case (g : graph) (symptoms : list string) : option bundle :=
  g_cases g !! sym_key symptoms.

(** [count(all_symptoms)] of [get_symptom_disease_probabilities]: the
    number of [HAS_SYMPTOM] edges of disease [d]. *)
Definition symptom_count (g : graph) (d : string) : nat :=
  length (List.filter (fun e => String.eqb (fst e) d) (g_edges g)).

(** [ORDER BY symptom_count DESC] *)
Definition by_count_desc (g : graph) (d1 d2 : string) : Prop :=
  symptom_count g d2 <= symptom_count g d1.

#[export] Instance by_count_desc_dec (g : graph) : RelDecision (by_count_desc g) :=
  fun d1 d2 => decide (symptom_count g d2 <= symptom_count g d1).

(** The rows of the second query of [get_symptom_disease_probabilities]:
    one per disease with an edge to [symptom], [ORDER BY symptom_count DESC]. *)
Definition disease_rows (g : graph) (symptom : string) : list string :=
  merge_sort (by_count_desc g)
    (remove_dups (map fst (List.filter (fun e => String.eqb (snd e) symptom) (g_edges g)))).

(** [prob = 1.0 / (record["symptom_count"] + 1)] for the row of [d]. *)
Definition row_prob (g : graph) (d : string) : Q :=
  (1 / (inject_Z (Z.of_nat (symptom_count g d)) + 1))%Q.

(** [get_symptom_disease_probabilities(symptom)]: [total_diseases] is
    [count(d)] over the edges into [symptom]; the float arithmetic is taken
    exactly. *)
Definition get_symptom_disease_probabilities (g : graph) (symptom : string) : prob_dict :=
  let total_diseases :=
    length (List.filter (fun e => String.eqb (snd e) symptom) (g_edges g)) in
  if Nat.eqb total_diseases 0 then [] else
  let probabilities :=
    fold_left (fun acc d => dict_set acc d (row_prob g d)) (disease_rows g symptom) [] in
  let total_prob := fold_left Qplus (map snd probabilities) 0%Q in
  if Qle_bool total_prob 0%Q then probabilities
  else map (fun kv => (fst kv, snd kv / total_prob)%Q) probabilities.

End Graph.


(* ===================================================================== *)
(** * 9. Knowledge loading and the cached model *)
(* ===================================================================== *)

(** Text-mode reading ([newline=None]): ["\r\n"] and a lone ["\r"] become
    ["\n"]. *)
Fixpoint universal_newlines (l : list ascii) : list ascii :=
  match l with
  | [] => []
  | c :: l' =>
      if Ascii.eqb c "013" then
        match l' with
        | c2 :: l'' =>
            if Ascii.eqb c2 "010" then "010"%char :: universal_newlines l''
            else "010"%char :: universal_newlines l'
        | [] => ["010"%char]
        end
      else c :: universal_newlines l'
  end.

(** [for line in file]: each line keeps its ["\n"]; the last one may have
    none, and an empty remainder gives no line. [cur] holds the current line
    reversed. *)
Fixpoint split_lines (cur : list ascii) (l : list ascii) : list (list ascii) :=
  match l with
  | [] => match cur with [] => [] | _ :: _ => [rev cur] end
  | c :: l' =>
      if Ascii.eqb c "010" then rev (c :: cur) :: split_lines [] l'
      else split_lines (c :: cur) l'
  end.

(** [read_knowledge_file(fp)]: [file] is the file's (ASCII) content, [None]
    when [open] raises [FileNotFoundError]. *)
Definition read_knowledge_file (g : graph) (file : option string) : list string * graph :=
  match file with
  | None => ([], Graph.log_audit g "KNOWLEDGE_FILE_READ_ERROR")
  | Some text =>
      let lines :=
        map py_strip (List.filter nonblank
          (map string_of_list_ascii
             (split_lines [] (universal_newlines (list_ascii_of_string text))))) in
      (lines, Graph.log_audit g "KNOWLEDGE_FILE_READ")
  end.

(** The body of the inner loop of [load] for one pair. *)
Definition load_pair (g : graph) (p : string * string) : graph :=
  let '(disease, symptom) := p in
  Graph.connect_disease_symptom
    (Graph.merge_symptom (Graph.merge_disease g disease) symptom) disease symptom.

(** [load(fp)]; [extract_disease_symptom] is the spaCy-based extractor of
    [nlp_utils], taken as a parameter. *)
Definition load (g : graph) (file : option string)
    (extract_disease_symptom : string -> list (string * string)) : graph :=
  let '(lines, g1) := read_knowledge_file g file in
  Graph.log_audit
    (fold_left (fun g line => fold_left load_pair (extract_disease_symptom line) g) lines g1)
    "KNOWLEDGE_GRAPH_POPULATED".

(** [_fetch_graph()]: one row per disease with at least one [HAS_SYMPTOM]
    edge, with the names of its symptoms. *)
Definition fetch_graph (g : graph) : list (string * list string) :=
  List.filter (fun row => negb (bool_decide (snd row = [])))
    (map (fun d => (d, map snd (List.filter (fun e => String.eqb (fst e) d) (g_edges g))))
       (g_diseases g)).

(** The nodes of [DiscreteBayesianNetwork(edges)] for the edges
    [(sym, dis)] of the mapping, in insertion order. *)
Definition model_variables (mapping : list (string * list string)) : list string :=
  remove_dups (flat_map (fun row => flat_map (fun sym => [sym; fst row]) (snd row)) mapping).

(** The compiled model of a mapping; [posterior] is what variable
    elimination computes on its CPDs. *)
Definition compiled (mapping : list (string * list string))
    (posterior : list string -> string -> Q) : compiled_model :=
  {| m_variables := model_variables mapping; m_posterior := posterior |}.

(** The graph together with [_cached_model], represented by the mapping the
    cached model was built from. *)
Record session := {
  s_graph : graph;
  s_cached_model : option (list (string * list string))
}.

(** [session] with its graph replaced. *)
Definition set_graph (s : session) (g : graph) : session :=
  {| s_graph := g; s_cached_model := s_cached_model s |}.

(** The edges [(sym, dis)] that [build_model] passes to
    [DiscreteBayesianNetwork]. *)
Definition network_edges (mapping : list (string * list string)) : list (string * string) :=
  flat_map (fun row => map (fun sym => (sym, fst row)) (snd row)) mapping.

(** Kahn's algorithm: remove the nodes with no incoming edge, and their
    edges, until no node is left (acyclic) or none can be removed (a cycle,
    a self-loop included). Each round removes a node, so [fuel] = the
    number of nodes suffices. *)
Fixpoint acyclic_go (fuel : nat) (nodes : list string) (edges : list (string * string)) : bool :=
  match fuel with
  | O => bool_decide (nodes = [])
  | S f =>
      let sources := List.filter (fun n => negb (existsb (fun e => String.eqb (snd e) n) edges)) nodes in
      match sources with
      | [] => bool_decide (nodes = [])
      | _ :: _ =>
          acyclic_go f (List.filter (fun n => negb (bool_decide (n ∈ sources))) nodes)
            (List.filter (fun e => negb (bool_decide (fst e ∈ sources))) edges)
      end
  end.

(** [DiscreteBayesianNetwork(edges)] accepts the edges of the mapping:
    pgmpy raises [ValueError] on an edge that closes a cycle. *)
Definition network_acyclic (mapping : list (string * list string)) : bool :=
  acyclic_go (length (model_variables mapping)) (model_variables mapping) (network_edges mapping).

(** The cached [build_model()], with an override table holding
    probabilities (the CPDs then pass [check_model]): the cached model is
    returned as it is; otherwise the network is built from [_fetch_graph()],
    which raises [ValueError] when its edges form a cycle, and cached. *)
Definition build_model (s : session) : py_result (list (string * list string)) * session :=
  match s_cached_model s with
  | Some mapping => (Ok mapping, s)
  | None =>
      let mapping := fetch_graph (s_graph s) in
      if network_acyclic mapping
      then (Ok mapping, {| s_graph := s_graph s; s_cached_model := Some mapping |})
      else (Err "ValueError", s)
  end.


(** The [:Disease] nodes with their symptoms, as the query of
    [diseases_by_symptoms] sees them (a disease without edges takes no part
    in it). *)
Definition disease_nodes (g : graph) : list disease_node :=
  map (fun row => {| d_name := fst row; d_symptoms := snd row |}) (fetch_graph g).

(** The match mode: ["p"] is [min_matches = 2], ["w"] is [1], anything
    else [None]; [mode] is the answer after [.strip().lower()]. *)
Definition min_matches_of_mode (mode : string) : option Z :=
  if String.eqb mode "p" then Some 2%Z
  else if String.eqb mode "w" then Some 1%Z
  else None.

(** [bayes_utils.diagnose_patient()] for patient [person], the comma-split
    pieces [raw] of the symptom answer and the match [mode], at time [ts],
    against a store that answers; [posterior] is what variable elimination
    computes on the model's CPDs.
    - An existing bundle for [syms] is reported with
      [time.strftime(..., time.localtime(...))]; [time] is [datetime.time]
      ([from datetime import time]), which has no [localtime]:
      [AttributeError].
    - The match step, [build_model()] and the inference loop.
    - The display loop calls [model.get_cpds(symptom)] for every symptom
      once per result entry: [ValueError] for a symptom that is no node of
      the model.
    - A flagged result gives [upsert_special_case(syms)] and the audit event
      [UNUSUAL_CASE]; a non-empty one records the diagnosis of its best
      disease. *)
Definition bayes_diagnose_patient (s : session) (posterior : list string -> string -> Q)
    (person : string) (raw : list string) (mode : string) (ts : Z) : outcome * session :=
  let syms := sympts_of raw in
  match Graph.find_special_case (s_graph s) syms with
  | Some _ => (Raised "AttributeError", s)
  | None =>
      let diseases := match_step (disease_nodes (s_graph s)) syms (min_matches_of_mode mode) in
      match build_model s with
      | (Err e, s1) => (Raised e, s1)
      | (Ok mapping, s1) =>
          match infer_loop (compiled mapping posterior) syms diseases [] with
          | Err e => (Raised e, s1)
          | Ok result =>
              if negb (bool_decide (result = [])) &&
                 negb (forallb (fun sym => bool_decide (sym ∈ model_variables mapping)) syms)
              then (Raised "ValueError", s1)
              else
                let g1 := if is_unusual result
                          then Graph.log_audit (fst (Graph.upsert_special_case (s_graph s1) syms ts))
                                 "UNUSUAL_CASE"
                          else s_graph s1 in
                let g2 := match py_argmax result with
                          | Some best =>
                              Graph.create_diagnosis g1 person best
                                (default 0%Q (dict_get result best)) ts
                          | None => g1
                          end in
                (Returned, set_graph s1 g2)
          end
      end
  end.

(** [diagnose(...)] as [main] calls it: [main] imports [diagnose] from
    [bayes_utils], which imports it from [torch.onnx._internal.diagnostics]:
    [diagnose(rule, level, message=None, frames_to_skip=2, **kwargs)].
    Binding fewer than two positional arguments raises [TypeError] before
    the body runs; [n_positional] is the number of positional arguments. *)
Definition diagnose_binding (n_positional : nat) : py_result unit :=
  if Nat.ltb n_positional 2 then Err "TypeError" else Ok tt.

(** [main.diagnose_patient()] for patient [person] and the comma-split
    pieces [raw] of the symptom answer, at time [ts], against a store that
    answers; [known_ok] says whether the [get_known_symptoms] query
    answers. The similar-case lookup, the bundle lookup, the symptom
    probabilities and the match step only read the store. Then comes
    [probs = diagnose(syms)], with one positional argument; [rest] is what
    the function would do after that call returned (the display, the
    unusual-case branch and the recorded diagnosis). *)
Definition main_diagnose_patient (g : graph) (known_ok : bool) (person : string)
    (raw : list string) (ts : Z) (rest : graph -> outcome * graph) : outcome * graph :=
  let syms := sympts_of raw in
  let '(unknown_syms, g1) := Graph.find_unknown_symptoms g known_ok syms in
  let g2 := match unknown_syms with
            | [] => g1
            | _ :: _ => fst (Graph.upsert_special_case_with_patient g1 syms person ts)
            end in
  match diagnose_binding 1 with
  | Err e => (Raised e, g2)
  | Ok _ => rest g2
  end.

(** The write operations on the graph. *)
Inductive graph_op :=
  | OMergeSymptom (name : string)
  | OMergeDisease (name : string)
  | OConnect (disease symptom : string)
  | OMergePerson (name role : string)
  | OCreateDiagnosis (person disease : string) (confidence : Q) (ts : Z)
  | OUpsertSpecialCase (symptoms : list string) (ts : Z)
  | OUpsertWithPatient (symptoms : list string) (patient : string) (ts : Z)
  | OLoad (file : option string).

Definition apply_op (extract : string -> list (string * string)) (g : graph)
    (o : graph_op) : graph :=
  match o with
  | OMergeSymptom n => Graph.merge_symptom g n
  | OMergeDisease n => Graph.merge_disease g n
  | OConnect d s => Graph.connect_disease_symptom g d s
  | OMergePerson n r => Graph.merge_person g n r
  | OCreateDiagnosis p d c ts => Graph.create_diagnosis g p d c ts
  | OUpsertSpecialCase syms ts => fst (Graph.upsert_special_case g syms ts)
  | OUpsertWithPatient syms p ts => fst (Graph.upsert_special_case_with_patient g syms p ts)
  | OLoad file => load g file extract
  end.

(** The store is well formed: no node or edge twice, every edge and every
    diagnosis between existing nodes, every special case stored under its own
    key with its edges to existing symptoms. *)
Definition well_formed (g : graph) : Prop :=
  NoDup (g_diseases g) /\ NoDup (g_symptoms g) /\ NoDup (g_edges g) /\
  NoDup (map fst (g_persons g)) /\ NoDup (map fst (g_diagnoses g)) /\
  (forall d s, (d, s) ∈ g_edges g -> d ∈ g_diseases g /\ s ∈ g_symptoms g) /\
  (forall p d v, ((p, d), v) ∈ g_diagnoses g -> p ∈ map fst (g_persons g) /\ d ∈ g_diseases g) /\
  (forall k c, g_cases g !! k = Some c -> b_sym_key c = k /\ Forall (fun s => s ∈ g_symptoms g) (b_edges c)).

(** A graph loaded from the pairs (Flu, Fever), (Flu, Cough), (Covid, Fever),
    (Covid, Cough), (Covid, Loss Of Smell). *)
Definition flu_covid_graph : graph :=
  fold_left load_pair
    [("Flu", "Fever"); ("Flu", "Cough"); ("Covid", "Fever"); ("Covid", "Cough");
     ("Covid", "Loss Of Smell")] empty_graph.

(** A line as [read_knowledge_file] returns it. *)
Definition clean_line (line : string) : Prop :=
  line <> EmptyString /\ py_strip line = line /\
  ~ In "010"%char (list_ascii_of_string line) /\ ~ In "013"%char (list_ascii_of_string line).

(** A database that refuses every [:Audit] record and accepts every other
    write, the [:AuditError] fallback included. *)
Definition audit_only_down (q : query_kind) : bool :=
  match q with QAudit _ => false | _ => true end.

(** Characters that [_sym_key] uses as the separator. *)
Definition no_bar (s : string) : Prop := ~ In "|"%char (list_ascii_of_string s).

(* ===================================================================== *)
(** * Proofs *)
(* ===================================================================== *)

(** ** Character-level facts, checked over all 256 characters *)

Lemma in_all_ascii (c : ascii) : In c all_ascii.
Proof.
  unfold all_ascii. rewrite <- (ascii_nat_embedding c).
  apply in_map, in_seq. pose proof (nat_ascii_bounded c). lia.
Qed.

Lemma case_pair_check :
  forallb (fun c => forallb (fun c' =>
    implb (Ascii.eqb (to_lower c) (to_lower c'))
      (Ascii.eqb (to_upper c) (to_upper c') && Bool.eqb (is_cased c) (is_cased c')
       && Bool.eqb (py_isspace c) (py_isspace c'))) all_ascii) all_ascii = true.
Proof. vm_compute. reflexivity. Qed.

Lemma case_pair (c c' : ascii) :
  to_lower c = to_lower c' ->
  to_upper c = to_upper c' /\ is_cased c = is_cased c' /\ py_isspace c = py_isspace c'.
Proof.
  intros H. pose proof case_pair_check as K.
  rewrite forallb_forall in K. specialize (K c (in_all_ascii c)).
  rewrite forallb_forall in K. specialize (K c' (in_all_ascii c')).
  assert (E : Ascii.eqb (to_lower c) (to_lower c') = true) by (apply Ascii.eqb_eq; exact H).
  rewrite E in K. simpl in K.
  apply andb_prop in K as [K K3]. apply andb_prop in K as [K1 K2].
  apply Ascii.eqb_eq in K1. apply Bool.eqb_prop in K2, K3. auto.
Qed.

Lemma char_check :
  forallb (fun c =>
    Ascii.eqb (to_upper (to_upper c)) (to_upper c)
    && Ascii.eqb (to_lower (to_lower c)) (to_lower c)
    && Bool.eqb (is_cased (to_upper c)) (is_cased c)
    && Bool.eqb (is_cased (to_lower c)) (is_cased c)
    && Bool.eqb (py_isspace (to_upper c)) (py_isspace c)
    && Bool.eqb (py_isspace (to_lower c)) (py_isspace c)) all_ascii = true.
Proof. vm_compute. reflexivity. Qed.

Lemma char_facts (c : ascii) :
  to_upper (to_upper c) = to_upper c /\ to_lower (to_lower c) = to_lower c /\
  is_cased (to_upper c) = is_cased c /\ is_cased (to_lower c) = is_cased c /\
  py_isspace (to_upper c) = py_isspace c /\ py_isspace (to_lower c) = py_isspace c.
Proof.
  pose proof char_check as K. rewrite forallb_forall in K.
  specialize (K c (in_all_ascii c)).
  repeat match type of K with
  | _ && _ = true => apply andb_prop in K as [K ?]
  end.
  repeat match goal with
  | H : Ascii.eqb _ _ = true |- _ => apply Ascii.eqb_eq in H
  | H : Bool.eqb _ _ = true |- _ => apply Bool.eqb_prop in H
  end.
  repeat split; assumption.
Qed.

(** ** strip and title on lists of characters *)

Lemma Forall2_rev_l {A B} (P : A -> B -> Prop) (l : list A) (k : list B) :
  Forall2 P l k -> Forall2 P (rev l) (rev k).
Proof. induction 1; simpl; [constructor|]. apply Forall2_app; auto. Qed.

Section StripRel.
  Variable R : ascii -> ascii -> Prop.
  Hypothesis R_space : forall c c', R c c' -> py_isspace c = py_isspace c'.

Lemma lstrip_Forall2 la lb : Forall2 R la lb -> Forall2 R (lstrip_l la) (lstrip_l lb).
Proof.
  induction 1 as [|a b la lb Hab Hl IH]; simpl; [constructor|].
  rewrite (R_space _ _ Hab). destruct (py_isspace b); [exact IH|].
  constructor; assumption.
Qed.

Lemma strip_Forall2 la lb : Forall2 R la lb -> Forall2 R (strip_l la) (strip_l lb).
Proof.
  intros H. unfold strip_l.
  apply Forall2_rev_l, lstrip_Forall2, Forall2_rev_l, lstrip_Forall2, H.
Qed.
End StripRel.

Lemma map_lower_Forall2 (la lb : list ascii) :
  map to_lower la = map to_lower lb ->
  Forall2 (fun c c' => to_lower c = to_lower c') la lb.
Proof.
  revert lb; induction la as [|a la IH]; intros [|b lb] H; simpl in H;
    try discriminate; constructor.
  - injection H as H1 H2. exact H1.
  - injection H as H1 H2. apply IH, H2.
Qed.

Lemma title_Forall2_lower p (la lb : list ascii) :
  Forall2 (fun c c' => to_lower c = to_lower c') la lb ->
  title_l p la = title_l p lb.
Proof.
  intros H; revert p; induction H as [|a b la lb Hab Hl IH]; intros p; simpl; [done|].
  destruct (case_pair a b Hab) as (Hu & Hc & _). rewrite Hc, (IH (is_cased b)).
  destruct p; congruence.
Qed.

Lemma title_length p (l : list ascii) : length (title_l p l) = length l.
Proof. revert p; induction l; intros p; simpl; auto. Qed.

Lemma title_idem p (l : list ascii) : title_l p (title_l p l) = title_l p l.
Proof.
  revert p; induction l as [|c l IH]; intros p; simpl; [done|].
  destruct (char_facts c) as (H1 & H2 & H3 & H4 & _).
  destruct p; simpl.
  - rewrite H2, H4, IH. reflexivity.
  - rewrite H1, H3, IH. reflexivity.
Qed.

Lemma title_space p (l : list ascii) :
  Forall2 (fun c c' => py_isspace c = py_isspace c') l (title_l p l).
Proof.
  revert p; induction l as [|c l IH]; intros p; simpl; constructor; [|apply IH].
  destruct (char_facts c) as (_ & _ & _ & _ & H5 & H6).
  destruct p; congruence.
Qed.

Lemma lstrip_length (l : list ascii) : length (lstrip_l l) <= length l.
Proof. induction l as [|c l IH]; simpl; [lia|]. destruct (py_isspace c); simpl; lia. Qed.

Lemma lstrip_idem (l : list ascii) : lstrip_l (lstrip_l l) = lstrip_l l.
Proof.
  induction l as [|c l IH]; simpl; [done|].
  destruct (py_isspace c) eqn:E; [exact IH|]. simpl. rewrite E. reflexivity.
Qed.

Lemma lstrip_suffix (l : list ascii) : exists p, l = p ++ lstrip_l l.
Proof.
  induction l as [|c l [p Hp]]; simpl; [exists []; done|].
  destruct (py_isspace c); [exists (c :: p); simpl; congruence|exists []; done].
Qed.

Lemma lstrip_fixed_iff (m : list ascii) :
  lstrip_l m = m <-> match m with [] => True | c :: _ => py_isspace c = false end.
Proof.
  destruct m as [|c m]; simpl; [tauto|].
  destruct (py_isspace c) eqn:E; [|tauto]. split; [|discriminate].
  intros H. pose proof (lstrip_length m) as L. rewrite H in L. simpl in L. lia.
Qed.

Lemma lstrip_fixed_app (m t : list ascii) : lstrip_l (m ++ t) = m ++ t -> lstrip_l m = m.
Proof.
  rewrite !lstrip_fixed_iff. destruct m; simpl; auto.
Qed.

Definition stripped (m : list ascii) : Prop := lstrip_l m = m /\ lstrip_l (rev m) = rev m.

Lemma strip_stripped (l : list ascii) : stripped (strip_l l).
Proof.
  unfold stripped, strip_l. rewrite rev_involutive. split; [|apply lstrip_idem].
  set (a := lstrip_l l). set (b := lstrip_l (rev a)).
  destruct (lstrip_suffix (rev a)) as [p Hp]. fold b in Hp.
  assert (Ha : a = rev b ++ rev p).
  { rewrite <- (rev_involutive a), Hp, rev_app_distr. reflexivity. }
  apply (lstrip_fixed_app _ (rev p)). rewrite <- Ha. apply lstrip_idem.
Qed.

Lemma stripped_strip (m : list ascii) : stripped m -> strip_l m = m.
Proof. intros [H1 H2]. unfold strip_l. rewrite H1, H2. apply rev_involutive. Qed.

Lemma stripped_Forall2 (m m' : list ascii) :
  Forall2 (fun c c' => py_isspace c = py_isspace c') m m' -> stripped m -> stripped m'.
Proof.
  intros H [H1 H2]. split.
  - apply lstrip_fixed_iff. apply lstrip_fixed_iff in H1.
    destruct H; [done|]. congruence.
  - apply lstrip_fixed_iff. apply lstrip_fixed_iff in H2.
    apply Forall2_rev_l in H. destruct H; [done|]. congruence.
Qed.

(** ** Normalisation *)

Lemma norm_chars (s : string) :
  norm s = string_of_list_ascii (title_l false (strip_l (list_ascii_of_string s))).
Proof.
  unfold norm, py_title, py_strip. rewrite list_ascii_of_string_of_list_ascii. reflexivity.
Qed.

Lemma norm_case_variant (x y : string) :
  case_variant x y -> norm x = norm y /\ nonblank x = nonblank y.
Proof.
  intros H. apply map_lower_Forall2 in H.
  assert (H' := strip_Forall2 _ (fun c c' Hc => proj2 (proj2 (case_pair c c' Hc))) _ _ H).
  split.
  - rewrite !norm_chars. f_equal. apply title_Forall2_lower, H'.
  - unfold nonblank. destruct H'; reflexivity.
Qed.

Lemma norm_idem (s : string) : norm (norm s) = norm s /\ nonblank (norm s) = nonblank s.
Proof.
  set (m := strip_l (list_ascii_of_string s)).
  assert (Hs : strip_l (title_l false m) = title_l false m).
  { apply stripped_strip, (stripped_Forall2 m); [apply title_space|apply strip_stripped]. }
  assert (Hc : list_ascii_of_string (norm s) = title_l false m).
  { rewrite norm_chars, list_ascii_of_string_of_list_ascii. reflexivity. }
  split.
  - rewrite (norm_chars (norm s)), Hc, Hs, title_idem, norm_chars. reflexivity.
  - unfold nonblank. rewrite Hc, Hs. fold m.
    destruct m; reflexivity.
Qed.

(** ** The special-case key *)

Lemma in_sym_set (L : list string) (x : string) :
  x ∈ sym_set L <-> exists s, In s L /\ nonblank s = true /\ x = norm s.
Proof.
  unfold sym_set. rewrite elem_of_remove_dups, list_elem_of_In, in_map_iff.
  split.
  - intros (s & <- & Hs). apply filter_In in Hs as [Hs Hb]. eauto.
  - intros (s & Hs & Hb & ->). exists s. split; [done|]. apply filter_In. auto.
Qed.

Lemma canonical_ext (L1 L2 : list string) :
  (forall x, x ∈ sym_set L1 <-> x ∈ sym_set L2) -> canonical L1 = canonical L2.
Proof.
  intros H. unfold canonical. apply (Sorted_unique String.le).
  - apply Sorted_merge_sort. apply _.
  - apply Sorted_merge_sort. apply _.
  - etrans; [apply merge_sort_Permutation|].
    etrans; [|symmetry; apply merge_sort_Permutation].
    apply NoDup_Permutation; [apply NoDup_remove_dups..|exact H].
Qed.

Lemma in_canonical (L : list string) (x : string) : In x (canonical L) <-> x ∈ sym_set L.
Proof.
  unfold canonical. rewrite <- list_elem_of_In.
  rewrite (merge_sort_Permutation String.le (sym_set L)). reflexivity.
Qed.

(** X19: on 7-bit ASCII symptom names, the key [_sym_key] depends only on
    the symptom set: lists that are permutations, repetitions or ASCII case
    variants of one another get the same key; keying the canonical (sorted,
    de-duplicated, normalised) list again gives the same key (idempotence);
    and [_sym_key(["Cough","Fever"]) = _sym_key(["fever","COUGH","Fever"]) = "Cough|Fever"]. *)
Theorem sym_key_order_case_independent (L1 L2 : list string) :
  ascii7 L1 -> ascii7 L2 ->
  same_symptom_set L1 L2 ->
  sym_key L1 = sym_key L2 /\
  sym_key (canonical L1) = sym_key L1 /\
  sym_key ["Cough"; "Fever"] = "Cough|Fever" /\
  sym_key ["fever"; "COUGH"; "Fever"] = "Cough|Fever".
Proof.
  intros _ _ [H12 H21]. split; [|split; [|split; vm_compute; reflexivity]].
  - unfold sym_key. f_equal. apply canonical_ext. intros x. rewrite !in_sym_set.
    split.
    + intros (s & Hs & Hb & ->). destruct (H12 s Hs Hb) as (y & Hy & Hv).
      destruct (norm_case_variant s y Hv) as [Hn Hb']. exists y. split; [done|].
      split; [congruence|done].
    + intros (s & Hs & Hb & ->). destruct (H21 s Hs Hb) as (y & Hy & Hv).
      destruct (norm_case_variant s y Hv) as [Hn Hb']. exists y. split; [done|].
      split; [congruence|done].
  - unfold sym_key. f_equal. apply canonical_ext. intros x. rewrite !in_sym_set.
    split.
    + intros (s' & Hs' & Hb & ->). apply in_canonical, in_sym_set in Hs'.
      destruct Hs' as (s & Hs & Hb0 & ->). exists s.
      destruct (norm_idem s) as [-> _]. auto.
    + intros (s & Hs & Hb & ->). exists (norm s).
      destruct (norm_idem s) as [Hn Hnb]. split; [|split; [congruence|done]].
      apply in_canonical, in_sym_set. eauto.
Qed.

Lemma sym_key_order_case_independent_witness :
  ascii7 ["Cough"; "Fever"] /\ ascii7 ["fever"; "COUGH"; "Fever"] /\
  same_symptom_set ["Cough"; "Fever"] ["fever"; "COUGH"; "Fever"] /\
  sym_key ["Cough"; "Fever"] = sym_key ["fever"; "COUGH"; "Fever"] /\
  sym_key (canonical ["Cough"; "Fever"]) = sym_key ["Cough"; "Fever"] /\
  sym_key ["Cough"; "Fever"] = "Cough|Fever" /\
  sym_key ["fever"; "COUGH"; "Fever"] = "Cough|Fever".
Proof.
  assert (H : same_symptom_set ["Cough"; "Fever"] ["fever"; "COUGH"; "Fever"]).
  { split; intros x Hx _; simpl in Hx.
    - destruct Hx as [<-|[<-|[]]].
      + exists "COUGH"%string. split; [simpl; tauto|reflexivity].
      + exists "Fever"%string. split; [simpl; tauto|reflexivity].
    - destruct Hx as [<-|[<-|[<-|[]]]].
      + exists "Fever"%string. split; [simpl; tauto|reflexivity].
      + exists "Cough"%string. split; [simpl; tauto|reflexivity].
      + exists "Fever"%string. split; [simpl; tauto|reflexivity]. }
  assert (A1 : ascii7 ["Cough"; "Fever"]).
  { unfold ascii7. apply (bool_decide_eq_true_1 _). vm_compute. reflexivity. }
  assert (A2 : ascii7 ["fever"; "COUGH"; "Fever"]).
  { unfold ascii7. apply (bool_decide_eq_true_1 _). vm_compute. reflexivity. }
  split; [exact A1|]. split; [exact A2|].
  split; [exact H|]. exact (sym_key_order_case_independent _ _ A1 A2 H).
Defined.

(** ** The special-case key over Unicode *)

Section UcdCongruence.

Variables db db' : PyUnicode.ucd.

Lemma lstrip_incl (d : PyUnicode.ucd) (l : PyUnicode.ustr) : incl (PyUnicode.lstrip d l) l.
Proof.
  induction l as [|c l IH]; simpl; [apply incl_refl|].
  destruct (PyUnicode.u_isspace d c); [apply incl_tl, IH|apply incl_refl].
Qed.

Lemma strip_incl (d : PyUnicode.ucd) (l : PyUnicode.ustr) : incl (PyUnicode.strip d l) l.
Proof.
  unfold PyUnicode.strip. intros c Hc. apply in_rev, lstrip_incl, in_rev, lstrip_incl in Hc.
  exact Hc.
Qed.

Lemma lstrip_agree (l : PyUnicode.ustr) :
  List.Forall (PyUnicode.agree db db') l -> PyUnicode.lstrip db l = PyUnicode.lstrip db' l.
Proof.
  induction 1 as [|c l (Hs & _) _ IH]; simpl; [reflexivity|].
  rewrite Hs. destruct (PyUnicode.u_isspace db' c); [exact IH|reflexivity].
Qed.

Lemma strip_agree (l : PyUnicode.ustr) :
  List.Forall (PyUnicode.agree db db') l -> PyUnicode.strip db l = PyUnicode.strip db' l.
Proof.
  intros H. unfold PyUnicode.strip. rewrite (lstrip_agree l H). f_equal. apply lstrip_agree.
  apply List.Forall_rev. exact (List.incl_Forall (lstrip_incl db' l) H).
Qed.

Lemma skip_ignorable_agree (l : PyUnicode.ustr) :
  List.Forall (PyUnicode.agree db db') l ->
  PyUnicode.skip_ignorable db l = PyUnicode.skip_ignorable db' l.
Proof.
  induction 1 as [|c l (_ & _ & Hi & _) _ IH]; simpl; [reflexivity|].
  rewrite Hi. destruct (PyUnicode.u_case_ignorable db' c); [exact IH|reflexivity].
Qed.

Lemma skip_ignorable_in (d : PyUnicode.ucd) (l : PyUnicode.ustr) (c : Z) :
  PyUnicode.skip_ignorable d l = Some c -> In c l.
Proof.
  induction l as [|x l IH]; simpl; [discriminate|].
  destruct (PyUnicode.u_case_ignorable d x); [intros H; right; auto|intros [= ->]; left; auto].
Qed.

Lemma final_sigma_agree (before after : PyUnicode.ustr) :
  List.Forall (PyUnicode.agree db db') before -> List.Forall (PyUnicode.agree db db') after ->
  PyUnicode.final_sigma db before after = PyUnicode.final_sigma db' before after.
Proof.
  intros Hb Ha. unfold PyUnicode.final_sigma.
  rewrite (skip_ignorable_agree _ Hb), (skip_ignorable_agree _ Ha).
  destruct (PyUnicode.skip_ignorable db' before) as [c|] eqn:E1; [|reflexivity].
  apply skip_ignorable_in in E1. rewrite List.Forall_forall in Hb.
  destruct (Hb c E1) as (_ & -> & _). f_equal.
  destruct (PyUnicode.skip_ignorable db' after) as [c'|] eqn:E2; [|reflexivity].
  apply skip_ignorable_in in E2. rewrite List.Forall_forall in Ha.
  destruct (Ha c' E2) as (_ & -> & _). reflexivity.
Qed.

Lemma title_go_agree (l before : PyUnicode.ustr) (p : bool) :
  List.Forall (PyUnicode.agree db db') before -> List.Forall (PyUnicode.agree db db') l ->
  PyUnicode.title_go db p before l = PyUnicode.title_go db' p before l.
Proof.
  intros Hb Hl. revert p before Hb.
  induction Hl as [|c l Hc Hl IH]; intros p before Hb; simpl; [reflexivity|].
  destruct Hc as (Hs & Hcs & Hi & Hlo & Ht & Hf).
  rewrite Hcs, (IH _ (c :: before)) by (constructor; [repeat split; assumption|exact Hb]).
  f_equal. destruct p; [|exact Ht].
  unfold PyUnicode.lower_ucs4. rewrite Hlo, final_sigma_agree by assumption. reflexivity.
Qed.

Lemma sym_key_agree (L : list PyUnicode.ustr) :
  List.Forall (List.Forall (PyUnicode.agree db db')) L ->
  PyUnicode.sym_key db L = PyUnicode.sym_key db' L.
Proof.
  intros H. rewrite List.Forall_forall in H.
  unfold PyUnicode.sym_key. f_equal. f_equal. f_equal.
  rewrite (filter_ext_in (PyUnicode.nonblank db) (PyUnicode.nonblank db')).
  - apply map_ext_in. intros s Hs. apply filter_In in Hs as [Hs _].
    unfold PyUnicode.norm, PyUnicode.title. rewrite (strip_agree s (H s Hs)).
    apply title_go_agree; [constructor|].
    exact (List.incl_Forall (strip_incl db' s) (H s Hs)).
  - intros s Hs. unfold PyUnicode.nonblank. rewrite (strip_agree s (H s Hs)). reflexivity.
Qed.

Lemma casefold_agree (l : PyUnicode.ustr) :
  List.Forall (PyUnicode.agree db db') l -> PyUnicode.casefold db l = PyUnicode.casefold db' l.
Proof.
  unfold PyUnicode.casefold.
  induction 1 as [|c l (_ & _ & _ & _ & _ & Hf) _ IH]; simpl; [reflexivity|].
  rewrite Hf, IH. reflexivity.
Qed.

End UcdCongruence.

Lemma ucd_agrees_on (db : PyUnicode.ucd) (l : PyUnicode.ustr) :
  PyUnicode.ucd_agrees db ->
  Forall (fun c => c ∈ map PyUnicode.r_cp PyUnicode.sample_rows) l ->
  List.Forall (PyUnicode.agree db PyUnicode.sample_ucd) l.
Proof.
  intros Hdb Hl. unfold PyUnicode.ucd_agrees in Hdb.
  rewrite Forall_forall in Hdb, Hl |- *. intros c Hc. apply Hdb, Hl, Hc.
Qed.

Lemma ucd_agrees_on_all (db : PyUnicode.ucd) (L : list PyUnicode.ustr) :
  PyUnicode.ucd_agrees db ->
  Forall (Forall (fun c => c ∈ map PyUnicode.r_cp PyUnicode.sample_rows)) L ->
  List.Forall (List.Forall (PyUnicode.agree db PyUnicode.sample_ucd)) L.
Proof.
  intros Hdb HL. induction HL as [|l L Hl _ IH]; constructor; [|exact IH].
  exact (ucd_agrees_on db l Hdb Hl).
Qed.

Ltac ucd_sample db Hdb :=
  repeat first
    [ rewrite (sym_key_agree db PyUnicode.sample_ucd); [|apply (ucd_agrees_on_all db _ Hdb); apply (bool_decide_eq_true_1 _); vm_compute; reflexivity]
    | rewrite (casefold_agree db PyUnicode.sample_ucd); [|apply (ucd_agrees_on db _ Hdb); apply (bool_decide_eq_true_1 _); vm_compute; reflexivity] ].

(** C4 (code bug): [_sym_key] title-cases each symptom, and title-casing
    is not a case folding: two case variants of one symptom (equal under
    [str.casefold]) can get different keys. For every Unicode database
    holding the sample rows (those Python 3 reports), the Kelvin sign
    U+212A has no title-case mapping of its own, so [["\u212anee"]] keys as
    "\u212anee" (code points 8490, 110, 101, 101) while [["knee"]] keys as
    "Knee"; and the capital sigma after a cased letter lowers to the final
    sigma, so [["\u03b1\u03c3"]] keys as "\u0391\u03c3" while
    [["\u0391\u03a3"]] keys as "\u0391\u03c2". The specification's example
    does hold:
    [_sym_key(["Cough","Fever"]) = _sym_key(["fever","COUGH","Fever"]) = "Cough|Fever"]. *)
Theorem sym_key_title_not_case_fold (db : PyUnicode.ucd) (Hdb : PyUnicode.ucd_agrees db) :
  PyUnicode.casefold db PyUnicode.kelvin_nee = PyUnicode.casefold db PyUnicode.knee /\
  PyUnicode.sym_key db [PyUnicode.kelvin_nee] = [8490; 110; 101; 101]%Z /\
  PyUnicode.sym_key db [PyUnicode.knee] = [75; 110; 101; 101]%Z /\
  PyUnicode.sym_key db [PyUnicode.kelvin_nee] <> PyUnicode.sym_key db [PyUnicode.knee] /\
  PyUnicode.casefold db PyUnicode.alpha_sigma = PyUnicode.casefold db PyUnicode.ALPHA_SIGMA /\
  PyUnicode.sym_key db [PyUnicode.alpha_sigma] = [913; 963]%Z /\
  PyUnicode.sym_key db [PyUnicode.ALPHA_SIGMA] = [913; 962]%Z /\
  PyUnicode.sym_key db [PyUnicode.alpha_sigma] <> PyUnicode.sym_key db [PyUnicode.ALPHA_SIGMA] /\
  PyUnicode.sym_key db [PyUnicode.of_ascii "Cough"; PyUnicode.of_ascii "Fever"] =
    PyUnicode.of_ascii "Cough|Fever" /\
  PyUnicode.sym_key db [PyUnicode.of_ascii "fever"; PyUnicode.of_ascii "COUGH";
                        PyUnicode.of_ascii "Fever"] = PyUnicode.of_ascii "Cough|Fever".
Proof.
  ucd_sample db Hdb. vm_compute. repeat split; try reflexivity; discriminate.
Qed.

(** A database built from the sample rows holds them. *)
Lemma sym_key_title_not_case_fold_witness :
  PyUnicode.ucd_agrees PyUnicode.sample_ucd /\
  PyUnicode.sym_key PyUnicode.sample_ucd [PyUnicode.alpha_sigma] <>
    PyUnicode.sym_key PyUnicode.sample_ucd [PyUnicode.ALPHA_SIGMA].
Proof.
  assert (H : PyUnicode.ucd_agrees PyUnicode.sample_ucd).
  { unfold PyUnicode.ucd_agrees. apply Forall_forall. intros c _. repeat split. }
  split; [exact H|].
  exact (proj1 (proj2 (proj2 (proj2 (proj2 (proj2 (proj2 (proj2
           (sym_key_title_not_case_fold PyUnicode.sample_ucd H))))))))).
Defined.

(** ** The disease matcher *)




(** C2 (code_bug): with [min_matches = None] the number of required matches
    is [len(sympts)], the length of the normalised input list with its
    repetitions, while [found] is de-duplicated.  The input
    [["Fever"; "fever"]] names a single symptom, which Flu has, yet no
    disease is returned. *)
Theorem diseases_by_symptoms_repeated_symptom :
  sympts_of ["Fever"; "fever"] = ["Fever"; "Fever"] /\
  (forall s, In s (sympts_of ["Fever"; "fever"]) -> In s (d_symptoms flu)) /\
  diseases_by_symptoms [flu] ["Fever"; "fever"] None = [].
Proof.
  split; [vm_compute; reflexivity|split; [|vm_compute; reflexivity]].
  intros s Hs. vm_compute in Hs. simpl. destruct Hs as [<-|[<-|[]]]; auto.
Qed.





(** ** The special-case registry *)

Lemma upsert_lookup (reg : registry) (S : list string) (p : string) (t : Z) :
  exists c, fst (upsert_special_case_with_patient reg S p t) !! sym_key S = Some c /\
    b_hits c = b_hits (merged_bundle reg (sym_key S) (sym_set S) p t) /\
    b_first_seen c = b_first_seen (merged_bundle reg (sym_key S) (sym_set S) p t) /\
    b_last_seen c = b_last_seen (merged_bundle reg (sym_key S) (sym_set S) p t) /\
    b_patients c = b_patients (merged_bundle reg (sym_key S) (sym_set S) p t).
Proof.
  unfold upsert_special_case_with_patient. simpl. rewrite lookup_insert_eq.
  eexists. split; [reflexivity|]. repeat split.
Qed.

Lemma upsert_alternating_stable (S : list string) (l : list string) :
  forall (sched : list Z) (reg : registry) (a b : string) (c : bundle),
  reg !! sym_key S = Some c -> b_patients c = Some l -> a ∈ l -> b ∈ l ->
  exists c', upsert_alternating reg S a b sched !! sym_key S = Some c' /\
    (b_hits c' = b_hits c + Z.of_nat (length sched))%Z /\ b_patients c' = Some l.
Proof.
  induction sched as [|t sched IH]; intros reg a b c Hc Hp Ha Hb; simpl.
  - exists c. rewrite Nat2Z.inj_0, Z.add_0_r. auto.
  - destruct (upsert_lookup reg S a t) as (c1 & Hc1 & Hh & _ & _ & Hp1).
    unfold merged_bundle in Hh, Hp1. rewrite Hc in Hh, Hp1. simpl in Hh, Hp1.
    rewrite Hp in Hp1. rewrite bool_decide_eq_true_2 in Hp1 by exact Ha.
    destruct (IH _ b a c1 Hc1 Hp1 Hb Ha) as (c' & Hc' & Hh' & Hp').
    exists c'. split; [done|]. split; [|done]. rewrite Hh', Hh. lia.
Qed.

(** C5: the upsert of [upsert_special_case_with_patient] on the key
    [_sym_key(symptoms)]: on an absent key it creates the bundle with hit
    count 1, [first_seen = now] and the patient list [[patient]]; on a
    present bundle with a patient list it increments the hit count, sets
    [last_seen = now], keeps [first_seen], and appends the patient only when
    not already in the list.  Hence N >= 2 upserts of the same symptoms,
    starting from an absent key, with two distinct alternating patient names,
    give hit count N and the patient list [[a; b]] of size exactly 2. *)
Theorem upsert_special_case_monotone (reg : registry) (S : list string)
    (a b : string) (sched : list Z) :
  reg !! sym_key S = None -> a <> b -> 2 <= length sched ->
  (forall (p : string) (t : Z), exists c,
     fst (upsert_special_case_with_patient reg S p t) !! sym_key S = Some c /\
     b_hits c = 1%Z /\ b_first_seen c = t /\ b_patients c = Some [p]) /\
  (forall (reg' : registry) (c : bundle) (ps : list string) (p : string) (t : Z),
     reg' !! sym_key S = Some c -> b_patients c = Some ps ->
     exists c', fst (upsert_special_case_with_patient reg' S p t) !! sym_key S = Some c' /\
       b_hits c' = (b_hits c + 1)%Z /\ b_last_seen c' = Some t /\
       b_first_seen c' = b_first_seen c /\
       b_patients c' = Some (if bool_decide (p ∈ ps) then ps else ps ++ [p])) /\
  (exists c, upsert_alternating reg S a b sched !! sym_key S = Some c /\
     b_hits c = Z.of_nat (length sched) /\ b_patients c = Some [a; b] /\
     length [a; b] = 2 /\ NoDup [a; b]).
Proof.
  intros Habs Hab Hlen. split; [|split].
  - intros p t. destruct (upsert_lookup reg S p t) as (c & Hc & Hh & Hf & _ & Hp).
    unfold merged_bundle in Hh, Hf, Hp. rewrite Habs in Hh, Hf, Hp. eauto.
  - intros reg' c ps p t Hc Hps.
    destruct (upsert_lookup reg' S p t) as (c' & Hc' & Hh & Hf & Hl & Hp).
    unfold merged_bundle in Hh, Hf, Hl, Hp. rewrite Hc in Hh, Hf, Hl, Hp.
    rewrite Hps in Hp. exists c'. auto.
  - destruct sched as [|t1 [|t2 sched]]; simpl in Hlen; [lia|lia|]. simpl.
    destruct (upsert_lookup reg S a t1) as (c1 & Hc1 & Hh1 & _ & _ & Hp1).
    unfold merged_bundle in Hh1, Hp1. rewrite Habs in Hh1, Hp1. simpl in Hh1, Hp1.
    set (reg1 := fst (upsert_special_case_with_patient reg S a t1)) in *.
    destruct (upsert_lookup reg1 S b t2) as (c2 & Hc2 & Hh2 & _ & _ & Hp2).
    unfold merged_bundle in Hh2, Hp2. rewrite Hc1 in Hh2, Hp2. simpl in Hh2, Hp2.
    rewrite Hp1 in Hp2.
    rewrite bool_decide_eq_false_2 in Hp2
      by (rewrite list_elem_of_In; simpl; intros [H|[]]; congruence).
    simpl in Hp2.
    destruct (upsert_alternating_stable S [a; b] sched _ a b c2 Hc2 Hp2)
      as (c & Hc & Hh & Hp); [left|right; left|].
    exists c. split; [exact Hc|]. split; [rewrite Hh, Hh2, Hh1; lia|].
    split; [exact Hp|]. split; [reflexivity|].
    apply NoDup_cons; split; [rewrite list_elem_of_In; simpl; intros [H|[]]; congruence|].
    apply NoDup_singleton.
Qed.

Lemma upsert_special_case_monotone_witness :
  (∅ : registry) !! sym_key ["Rash"] = None /\ "Ann"%string <> "Bob"%string /\
  2 <= length [1; 2; 3]%Z /\
  (exists c, upsert_alternating ∅ ["Rash"] "Ann" "Bob" [1; 2; 3]%Z !! sym_key ["Rash"] = Some c /\
     b_hits c = Z.of_nat (length [1; 2; 3]%Z) /\ b_patients c = Some ["Ann"; "Bob"]%string /\
     length ["Ann"; "Bob"]%string = 2 /\ NoDup ["Ann"; "Bob"]%string).
Proof.
  assert (H1 : (∅ : registry) !! sym_key ["Rash"] = None) by apply lookup_empty.
  assert (H2 : "Ann"%string <> "Bob"%string) by discriminate.
  assert (H3 : 2 <= length [1; 2; 3]%Z) by (simpl; lia).
  split; [exact H1|split; [exact H2|split; [exact H3|]]].
  exact (proj2 (proj2 (upsert_special_case_monotone ∅ ["Rash"] "Ann" "Bob" [1; 2; 3]%Z H1 H2 H3))).
Defined.

(** ** Similar special cases *)

#[local] Instance by_overlap_desc_total : Total by_overlap_desc.
Proof. intros r1 r2. unfold by_overlap_desc. lia. Qed.

Lemma round_dyadic_exact (M E : Z) :
  (0 < M < 2 ^ 53)%Z -> (-1074 <= E <= 900)%Z -> round_dyadic M E = Fin M E.
Proof.
  intros HM HE. unfold round_dyadic.
  rewrite (proj2 (Z.eqb_neq M 0)) by lia. rewrite Z.abs_eq by lia.
  assert (Hl : (Z.log2 M < 53)%Z) by (apply Z.log2_lt_pow2; lia).
  rewrite (proj2 (Z.leb_le (Z.max (Z.log2 M + 1 - 53) (-1074 - E)) 0)) by lia.
  unfold dyadic_ge_pow2. destruct (Z.leb_spec 0 E) as [H0|H0].
  - replace (2 ^ 1024 <=? M * 2 ^ E)%Z with false.
    + rewrite Z.sgn_pos by lia. rewrite Z.mul_1_l. reflexivity.
    + symmetry. apply Z.leb_gt.
      assert (M * 2 ^ E < 2 ^ 53 * 2 ^ 900)%Z.
      { apply Z.lt_le_trans with (2 ^ 53 * 2 ^ E)%Z.
        - apply Z.mul_lt_mono_pos_r; [apply Z.pow_pos_nonneg|]; lia.
        - apply Z.mul_le_mono_nonneg_l; [lia|apply Z.pow_le_mono_r; lia]. }
      rewrite <- Z.pow_add_r in H by lia.
      assert (2 ^ 953 <= 2 ^ 1024)%Z by (apply Z.pow_le_mono_r; lia). lia.
  - replace (2 ^ (1024 - E) <=? M)%Z with false.
    + rewrite Z.sgn_pos by lia. rewrite Z.mul_1_l. reflexivity.
    + symmetry. apply Z.leb_gt.
      assert (2 ^ 53 <= 2 ^ (1024 - E))%Z by (apply Z.pow_le_mono_r; lia). lia.
Qed.

Lemma int_times_float_half (n : Z) :
  (0 <= n < 2 ^ 53)%Z -> int_times_float n half = Ok (n / 2)%Z.
Proof.
  intros Hn. unfold int_times_float, float_of_int, half.
  destruct (Z.eq_dec n 0%Z) as [->|Hn0]; [reflexivity|].
  rewrite round_dyadic_exact by lia. simpl float_mul.
  rewrite Z.mul_1_r, round_dyadic_exact by lia. simpl.
  rewrite Z.quot_div_nonneg by lia. reflexivity.
Qed.

(** C6 (counterexample): with three input symptoms and the default
    threshold 0.5 the code asks for [max(1, int(3 * 0.5)) = 1] shared
    symptom, so the bundle {Fever}, sharing one symptom, is returned
    although [ceil(0.5 * 3) = 2]. *)
Lemma find_similar_special_cases_not_ceiling :
  match find_similar_special_cases fever_registry ["Fever"; "Cough"; "Headache"] half with
  | Ok L => length L = 1%nat /\ forallb (fun r => Nat.eqb (length (snd r)) 1) L = true
  | Err _ => False
  end /\
  Z.max 1 (Qceiling (inject_Z (Z.of_nat (length (sym_set ["Fever"; "Cough"; "Headache"])))
                     * (1#2))) = 2%Z.
Proof. vm_compute. split; [split; reflexivity|reflexivity]. Qed.

(** C6 (amended): [find_similar_special_cases(S, t)] returns exactly the
    bundles of the registry, each with its matched symptoms, that share at
    least [max(1, int(n * t))] symptoms with the [n] distinct normalised
    symptoms of [S], ordered by descending overlap size; [n * t] is the
    float product, rounded to the nearest double, and [int] truncates it.
    When that product is infinite or NaN, the call raises
    [OverflowError] or [ValueError] before any query. With the default
    threshold 0.5 the bound is [max(1, n // 2)] (the floor, not the
    ceiling); with the float [0.58] and 50 symptoms it is 28, while
    [0.58 * 50 = 29] in decimals (the product is 28.999999999999996); with
    the float [0.7] and 10 symptoms it is 7, while the exact product of 10
    and the double nearest to 0.7 lies below 7 (the rounding gives 7.0). *)
Theorem find_similar_special_cases_trunc (reg : registry) (S : list string) (t : py_float) :
  match find_similar_special_cases reg S t,
        int_times_float (Z.of_nat (length (sym_set S))) t with
  | Ok L, Ok k =>
      (forall (c : bundle) (ms : list string),
         In (c, ms) L <->
         (exists key, reg !! key = Some c) /\ ms = matched (sym_set S) c /\
         (Z.max 1 k <= Z.of_nat (length ms))%Z) /\
      Sorted by_overlap_desc L
  | Err e1, Err e2 => e1 = e2
  | _, _ => False
  end /\
  (forall m : nat, (Z.of_nat m < 2 ^ 53)%Z -> int_times_float (Z.of_nat m) half = Ok (Z.of_nat m / 2)%Z) /\
  (forall m : nat, (0 < Z.of_nat m < 2 ^ 53)%Z -> int_times_float (Z.of_nat m) PInf = Err "OverflowError") /\
  int_times_float 0 PInf = Err "ValueError" /\
  (forall m : nat, (Z.of_nat m < 2 ^ 53)%Z -> int_times_float (Z.of_nat m) NaN = Err "ValueError") /\
  int_times_float 50 f0_58 = Ok 28%Z /\ Qfloor (50 * (58 # 100)) = 29%Z /\
  int_times_float 10 f0_7 = Ok 7%Z /\
  to_Q f0_7 = Some (3152519739159347 # 4503599627370496) /\
  Qfloor (10 * (3152519739159347 # 4503599627370496)) = 6%Z.
Proof.
  split; [|split; [|split; [|split; [|split; [|split; [|split; [|split; [|split]]]]]]]].
  - unfold find_similar_special_cases. cbv zeta.
    destruct (int_times_float _ t) as [k|e]; [|reflexivity].
    split.
    + intros c ms.
      rewrite <- list_elem_of_In, merge_sort_Permutation, list_elem_of_In, filter_In, in_map_iff.
      simpl. split.
      * intros ([[key c'] [Heq Hk]] & Hb). simpl in Heq. injection Heq as <- <-.
        apply list_elem_of_In, elem_of_map_to_list in Hk.
        apply andb_true_iff in Hb as [_ Hb]. apply Z.leb_le in Hb.
        split; [eauto|split; [reflexivity|exact Hb]].
      * intros ([key Hk] & -> & Hle). split.
        -- exists (key, c). split; [reflexivity|].
           apply list_elem_of_In, elem_of_map_to_list, Hk.
        -- apply andb_true_iff. split; [|apply Z.leb_le, Hle].
           apply negb_true_iff, bool_decide_eq_false. intros He.
           rewrite He in Hle. simpl in Hle. lia.
    + apply Sorted_merge_sort. apply _.
  - intros m Hm. apply int_times_float_half. lia.
  - intros m Hm. unfold int_times_float, float_of_int.
    rewrite round_dyadic_exact by lia. simpl float_mul.
    rewrite (proj2 (Z.eqb_neq _ 0)) by lia. rewrite (proj2 (Z.ltb_lt 0 _)) by lia.
    reflexivity.
  - reflexivity.
  - intros m Hm. unfold int_times_float, float_of_int.
    destruct (Z.eq_dec (Z.of_nat m) 0%Z) as [->|Hm0]; [reflexivity|].
    rewrite round_dyadic_exact by lia. reflexivity.
  - vm_compute. reflexivity.
  - vm_compute. reflexivity.
  - vm_compute. reflexivity.
  - vm_compute. reflexivity.
  - vm_compute. reflexivity.
Qed.

(** ** Rows of the disease CPTs *)

Lemma land_shiftr_bit (x : Z) (j : nat) :
  Z.land (Z.shiftr x (Z.of_nat j)) 1 = Z.b2z (Z.testbit x (Z.of_nat j)).
Proof.
  change 1%Z with (Z.ones 1). rewrite Z.land_ones by lia.
  rewrite Z.pow_1_r, <- Z.bit0_mod, Z.shiftr_spec by lia. reflexivity.
Qed.

Lemma row_pattern_pat (n i : nat) : row_pattern n i = pat n (Z.of_nat i).
Proof.
  unfold row_pattern, bits, pat. rewrite map_map. apply map_ext. intros j.
  rewrite land_shiftr_bit. destruct (Z.testbit _ _); reflexivity.
Qed.

Lemma pat_S (n : nat) (x : Z) : pat (S n) x = Z.testbit x (Z.of_nat n) :: pat n x.
Proof. unfold pat. rewrite seq_S, rev_app_distr. reflexivity. Qed.

Lemma length_pat (n : nat) (x : Z) : length (pat n x) = n.
Proof. unfold pat. rewrite length_map, length_rev, length_seq. reflexivity. Qed.

Lemma pat_mod (n : nat) (x : Z) : pat n x = pat n (x mod 2 ^ Z.of_nat n).
Proof.
  unfold pat. apply map_ext_in. intros j Hj. apply in_rev, in_seq in Hj.
  rewrite Z.mod_pow2_bits_low; [reflexivity|lia].
Qed.

Lemma enc_bounds (c : list bool) : (0 <= enc c < 2 ^ Z.of_nat (length c))%Z.
Proof.
  induction c as [|b c IH]; simpl enc; simpl length; [simpl; lia|].
  rewrite Nat2Z.inj_succ, Z.pow_succ_r by lia. destruct b; simpl Z.b2z; lia.
Qed.

Lemma pat_enc (c : list bool) : pat (length c) (enc c) = c.
Proof.
  induction c as [|b c IH]; [reflexivity|].
  simpl length. rewrite pat_S. simpl enc.
  pose proof (enc_bounds c) as Hb.
  assert (Hp : (2 ^ Z.of_nat (length c) <> 0)%Z) by lia.
  f_equal.
  - rewrite <- (Z.add_0_l (Z.of_nat (length c))) at 2.
    rewrite <- Z.div_pow2_bits by lia.
    rewrite Z.div_add_l, (Z.div_small (enc c)) by (auto || lia).
    rewrite Z.add_0_r. apply Z.b2z_bit0.
  - rewrite pat_mod, Z.add_comm, Z_mod_plus_full, Z.mod_small by exact Hb.
    exact IH.
Qed.

Lemma enc_pat (n : nat) (x : Z) : (0 <= x < 2 ^ Z.of_nat n)%Z -> enc (pat n x) = x.
Proof.
  revert x; induction n as [|n IH]; intros x Hx.
  - simpl in Hx. simpl. lia.
  - rewrite pat_S. simpl enc. rewrite length_pat.
    assert (Hpos : (0 < 2 ^ Z.of_nat n)%Z) by (apply Z.pow_pos_nonneg; lia).
    rewrite Nat2Z.inj_succ, Z.pow_succ_r in Hx by lia.
    rewrite pat_mod, IH by (apply Z.mod_pos_bound; lia).
    rewrite Z.testbit_spec' by lia.
    assert (Hq : (0 <= x / 2 ^ Z.of_nat n < 2)%Z).
    { split; [apply Z.div_pos; lia|apply Z.div_lt_upper_bound; lia]. }
    rewrite (Z.mod_small (x / _) 2) by exact Hq.
    pose proof (Z.div_mod x (2 ^ Z.of_nat n)) as Hd. lia.
Qed.

(** Every presence pattern of [n] symptoms is the pattern of exactly one of
    the rows [0 .. 2^n - 1]. *)
Lemma row_pattern_bijective (n : nat) (c : list bool) :
  length c = n -> exists! i, i < 2 ^ n /\ row_pattern n i = c.
Proof.
  intros <-. pose proof (enc_bounds c) as Hb. exists (Z.to_nat (enc c)). split.
  - split.
    + apply Nat2Z.inj_lt. rewrite Z2Nat.id, Nat2Z.inj_pow by lia. simpl. lia.
    + rewrite row_pattern_pat, Z2Nat.id by lia. apply pat_enc.
  - intros i [Hi Hp]. rewrite row_pattern_pat in Hp.
    apply Nat2Z.inj_lt in Hi. rewrite Nat2Z.inj_pow in Hi.
    rewrite <- Hp, enc_pat; [apply Nat2Z.id|]. simpl in Hi. lia.
Qed.

Lemma fold_rule (ov : string -> Q) (bs : list Z) (syms : list string) (p0 : Q) :
  fold_left (fun p bsym => let '(b, sym) := bsym in
               if Z.eqb b 1 then py_max p (ov sym) else p) (combine bs syms) p0 =
  fold_left py_max
    (map ov (map snd (List.filter fst (combine (map (fun b => Z.eqb b 1) bs) syms)))) p0.
Proof.
  revert syms p0; induction bs as [|b bs IH]; intros [|s syms] p0; simpl; try reflexivity.
  destruct (Z.eqb b 1); simpl; apply IH.
Qed.

Lemma py_max_ge (a b : Q) : (a <= py_max a b /\ b <= py_max a b)%Q.
Proof.
  unfold py_max. destruct (Qle_bool b a) eqn:E.
  - apply Qle_bool_iff in E. split; [apply Qle_refl|exact E].
  - split; [|apply Qle_refl]. apply Qlt_le_weak, Qnot_le_lt.
    intros H. apply Qle_bool_iff in H. congruence.
Qed.

Lemma py_max_cases (a b : Q) : py_max a b = a \/ py_max a b = b.
Proof. unfold py_max. destruct (Qle_bool b a); auto. Qed.

Lemma fold_max_in (l : list Q) (p0 : Q) : In (fold_left py_max l p0) (p0 :: l).
Proof.
  revert p0; induction l as [|x l IH]; intros p0; simpl; [auto|].
  destruct (IH (py_max p0 x)) as [H|H]; [|auto].
  rewrite <- H. destruct (py_max_cases p0 x) as [-> | ->]; auto.
Qed.

Lemma fold_max_init (l : list Q) (p0 : Q) : (p0 <= fold_left py_max l p0)%Q.
Proof.
  revert p0; induction l as [|x l IH]; intros p0; simpl; [apply Qle_refl|].
  eapply Qle_trans; [apply (proj1 (py_max_ge p0 x))|apply IH].
Qed.

Lemma fold_max_ge (l : list Q) (p0 : Q) :
  Forall (fun x => x <= fold_left py_max l p0)%Q (p0 :: l).
Proof.
  revert p0; induction l as [|x l IH]; intros p0.
  - constructor; [apply Qle_refl|constructor].
  - simpl. specialize (IH (py_max p0 x)). inversion IH as [|? ? H1 H2]; subst.
    constructor; [eapply Qle_trans; [apply (proj1 (py_max_ge p0 x))|exact H1]|].
    constructor; [eapply Qle_trans; [apply (proj2 (py_max_ge p0 x))|exact H1]|exact H2].
Qed.

(** C1: for every disease entry (dis, S) of the mapping, [build_model] builds
    the CPD [TabularCPD(dis, values=[row_false, row_true], evidence=S)] with
    [2^|S|] rows, one per present/absent pattern of [S]; the true-branch of a
    row is the maximum of the base probability ([base_prob] override, else
    [MIN_PROB]) and the overrides (default 0.8) of the symptoms present in
    the row; the false-branch is exactly [1 - true-branch], so the two add
    up to 1.  Probabilities are taken as exact rationals. *)
Theorem build_model_disease_cpt (probs : prob_table)
    (mapping : list (string * list string)) (dis : string) (syms : list string) :
  In (dis, syms) mapping ->
  In {| cpd_variable := dis;
        cpd_values := [row_false probs dis syms; row_true probs dis syms];
        cpd_evidence := syms |} (disease_cpds probs mapping) /\
  length (row_true probs dis syms) = 2 ^ length syms /\
  length (row_false probs dis syms) = 2 ^ length syms /\
  (forall c : list bool, length c = length syms ->
     exists! i, i < 2 ^ length syms /\ row_pattern (length syms) i = c) /\
  (forall (i : nat) (p : Q), nth_error (row_true probs dis syms) i = Some p ->
     In p (rule_candidates probs dis syms (row_pattern (length syms) i)) /\
     Forall (fun x => x <= p)%Q (rule_candidates probs dis syms (row_pattern (length syms) i)) /\
     nth_error (row_false probs dis syms) i = Some (1 - p)%Q /\
     ((1 - p) + p == 1)%Q).
Proof.
  intros Hin. split; [|split; [|split; [|split]]].
  - unfold disease_cpds. apply (in_map (fun ds : string * list string =>
      let '(dis, syms) := ds in
      {| cpd_variable := dis;
         cpd_values := [row_false probs dis syms; row_true probs dis syms];
         cpd_evidence := syms |}) _ _ Hin).
  - unfold row_true. rewrite length_map, length_seq. reflexivity.
  - unfold row_false. rewrite length_map, length_seq. reflexivity.
  - intros c Hc. apply row_pattern_bijective, Hc.
  - intros i p Hp. unfold row_true in Hp. rewrite nth_error_map, nth_error_seq in Hp.
    destruct (Nat.ltb i (2 ^ length syms)) eqn:Hlt; [|discriminate].
    simpl in Hp. injection Hp as <-.
    unfold rule_candidates.
    assert (Hr : row_p_true probs dis syms (bits (length syms) (Z.of_nat i)) =
      fold_left py_max
        (map (fun sym => default (4 # 5) (disease_probs probs dis !! sym))
           (map snd (List.filter fst (combine (row_pattern (length syms) i) syms))))
        (default MIN_PROB (disease_probs probs dis !! "base_prob"%string))).
    { unfold row_p_true.
      exact (fold_rule (fun sym => default (4 # 5) (disease_probs probs dis !! sym))
               (bits (length syms) (Z.of_nat i)) syms _). }
    rewrite Hr. split; [|split; [|split]].
    + apply fold_max_in.
    + apply fold_max_ge.
    + unfold row_false. rewrite nth_error_map, nth_error_seq, Hlt. simpl.
      rewrite Hr. reflexivity.
    + ring.
Qed.

Lemma build_model_disease_cpt_witness :
  In ("Flu", ["Fever"; "Cough"])%string [("Flu", ["Fever"; "Cough"])%string] /\
  length (row_true ∅ "Flu" ["Fever"; "Cough"]) = 2 ^ length ["Fever"; "Cough"]%string.
Proof.
  assert (H : In ("Flu", ["Fever"; "Cough"])%string [("Flu", ["Fever"; "Cough"])%string])
    by (left; reflexivity).
  split; [exact H|].
  exact (proj1 (proj2 (build_model_disease_cpt ∅ _ _ _ H))).
Defined.

(** ** The inference loop *)



(** ** The unusual-case test and the diagnosis attempts *)

Lemma is_unusual_spec (probs : prob_dict) :
  is_unusual probs = true <-> Forall (fun kv => (snd kv < UNUSUAL_THRESH)%Q) probs.
Proof.
  unfold is_unusual. rewrite forallb_forall, List.Forall_forall.
  split; intros H kv Hin; specialize (H kv Hin).
  - apply Qnot_le_lt. intros Hle. apply Qle_bool_iff in Hle. rewrite Hle in H. discriminate.
  - destruct (Qle_bool UNUSUAL_THRESH (snd kv)) eqn:E; [|reflexivity].
    apply Qle_bool_iff in E. exfalso. exact (Qlt_not_le _ _ H E).
Qed.

Lemma main_diagnose_patient_raises (g : graph) (known_ok : bool) (person : string)
    (raw : list string) (ts : Z) (rest : graph -> outcome * graph) :
  fst (main_diagnose_patient g known_ok person raw ts rest) = Raised "TypeError".
Proof.
  unfold main_diagnose_patient. destruct (Graph.find_unknown_symptoms _ _ _). reflexivity.
Qed.

Lemma upsert_with_patient_audit (g : graph) (syms : list string) (p : string) (ts : Z) :
  g_audit (fst (Graph.upsert_special_case_with_patient g syms p ts)) =
    g_audit g ++ ["UPSERT_SPECIAL_CASE_WITH_PATIENT"].
Proof.
  unfold Graph.upsert_special_case_with_patient.
  destruct (upsert_special_case_with_patient (g_cases g) syms p ts). reflexivity.
Qed.

Lemma build_model_graph (s : session) : s_graph (snd (build_model s)) = s_graph s.
Proof.
  unfold build_model. destruct (s_cached_model s); [reflexivity|].
  destruct (network_acyclic _); reflexivity.
Qed.

(** C7 (code bug): an attempt would be flagged unusual iff every
    probability of its mapping is strictly below [UNUSUAL_THRESH], but
    [main.diagnose_patient] never reaches that test: [diagnose(syms)]
    raises [TypeError] on every attempt, whatever the code after it would
    do. The audit records of an attempt are the failed known-symptom query,
    if any, and the upsert of an attempt with unknown symptoms, and never
    UNUSUAL_CASE. For the symptom Rash, unknown to the Flu/Covid graph, the
    attempt upserts the bundle once and raises. *)
Theorem main_diagnose_patient_never_flagged (g : graph) (known_ok : bool) (person : string)
    (raw : list string) (ts : Z) (rest : graph -> outcome * graph) (probs : prob_dict) :
  (is_unusual probs = true <-> Forall (fun kv => (snd kv < UNUSUAL_THRESH)%Q) probs) /\
  fst (main_diagnose_patient g known_ok person raw ts rest) = Raised "TypeError" /\
  g_audit (snd (main_diagnose_patient g known_ok person raw ts rest)) =
    g_audit g ++ (if known_ok then [] else ["GET_KNOWN_SYMPTOMS_ERROR"]) ++
    match fst (Graph.find_unknown_symptoms g known_ok (sympts_of raw)) with
    | [] => []
    | _ :: _ => ["UPSERT_SPECIAL_CASE_WITH_PATIENT"]
    end /\
  main_diagnose_patient flu_covid_graph true "Ann" ["rash"] 1 rest =
    (Raised "TypeError", fst (Graph.upsert_special_case_with_patient flu_covid_graph ["Rash"] "Ann" 1)).
Proof.
  split; [apply is_unusual_spec|split; [apply main_diagnose_patient_raises|split]].
  - unfold main_diagnose_patient. cbv zeta.
    destruct (Graph.find_unknown_symptoms g known_ok (sympts_of raw)) as [unk g1] eqn:Eu.
    assert (Ha : g_audit g1 = g_audit g ++ (if known_ok then [] else ["GET_KNOWN_SYMPTOMS_ERROR"])).
    { unfold Graph.find_unknown_symptoms, Graph.get_known_symptoms in Eu.
      destruct known_ok; injection Eu as _ <-; [rewrite app_nil_r|]; reflexivity. }
    replace (diagnose_binding 1) with (@Err unit "TypeError") by reflexivity.
    cbn [fst snd]. destruct unk as [|u unk].
    + rewrite Ha, app_nil_r. reflexivity.
    + rewrite upsert_with_patient_audit, Ha, <- app_assoc. reflexivity.
  - vm_compute. reflexivity.
Qed.

Lemma match_query_unmatched (g : list disease_node) (S : list string) (n : Z) :
  Forall (fun d => found S d = []) g -> match_query g S n = [].
Proof.
  unfold match_query. induction 1 as [|d g Hd _ IH]; simpl; [reflexivity|].
  rewrite Hd. simpl. exact IH.
Qed.

(** C10 (code bug): [is_unusual] holds of the empty mapping, and an
    attempt of [bayes_utils.diagnose_patient] with no bundle for its
    symptoms, a model that builds and an empty match step is flagged: it
    upserts the bundle and audits UNUSUAL_CASE. But an attempt whose
    symptoms already have a bundle raises [AttributeError] at
    [time.localtime], before matching and with no write, and
    [main.diagnose_patient] never reaches its unusual-case branch. On the
    Flu/Covid graph a first attempt for Rash is flagged and creates the
    bundle Rash; a second one raises. *)
Theorem is_unusual_empty_bundle_attempt_raises (s : session)
    (posterior : list string -> string -> Q) (person : string) (raw : list string)
    (mode : string) (ts : Z)
    (Hc : Graph.find_special_case (s_graph s) (sympts_of raw) <> None) :
  is_unusual [] = true /\
  bayes_diagnose_patient s posterior person raw mode ts = (Raised "AttributeError", s) /\
  (forall (s' : session) (mapping : list (string * list string)),
     Graph.find_special_case (s_graph s') (sympts_of raw) = None ->
     fst (build_model s') = Ok mapping ->
     match_step (disease_nodes (s_graph s')) (sympts_of raw) (min_matches_of_mode mode) = [] ->
     fst (bayes_diagnose_patient s' posterior person raw mode ts) = Returned /\
     g_audit (s_graph (snd (bayes_diagnose_patient s' posterior person raw mode ts))) =
       g_audit (s_graph s') ++ ["UPSERT_SPECIAL_CASE"; "UNUSUAL_CASE"]) /\
  (forall g known_ok rest,
     fst (main_diagnose_patient g known_ok person raw ts rest) = Raised "TypeError") /\
  (let s0 := {| s_graph := flu_covid_graph; s_cached_model := None |} in
   let r1 := bayes_diagnose_patient s0 posterior "Ann" ["rash"] EmptyString 1 in
   fst r1 = Returned /\
   g_audit (s_graph (snd r1)) = g_audit flu_covid_graph ++ ["UPSERT_SPECIAL_CASE"; "UNUSUAL_CASE"] /\
   Graph.find_special_case (s_graph (snd r1)) ["Rash"] <> None /\
   bayes_diagnose_patient (snd r1) posterior "Ann" ["rash"] EmptyString 2 =
     (Raised "AttributeError", snd r1)).
Proof.
  assert (Hflag : forall (s' : session) (mapping : list (string * list string)) p r md t,
     Graph.find_special_case (s_graph s') (sympts_of r) = None ->
     fst (build_model s') = Ok mapping ->
     match_step (disease_nodes (s_graph s')) (sympts_of r) (min_matches_of_mode md) = [] ->
     fst (bayes_diagnose_patient s' posterior p r md t) = Returned /\
     g_audit (s_graph (snd (bayes_diagnose_patient s' posterior p r md t))) =
       g_audit (s_graph s') ++ ["UPSERT_SPECIAL_CASE"; "UNUSUAL_CASE"]).
  { intros s' mapping p r md t Hn Hb Hm. unfold bayes_diagnose_patient. cbv zeta.
    rewrite Hn, Hm. pose proof (build_model_graph s') as Hg.
    destruct (build_model s') as [res s1]. simpl in Hb, Hg. subst res.
    simpl. split; [reflexivity|]. simpl. rewrite Hg.
    unfold Graph.upsert_special_case. simpl. rewrite <- app_assoc. reflexivity. }
  split; [reflexivity|split; [|split; [|split]]].
  - unfold bayes_diagnose_patient. cbv zeta.
    destruct (Graph.find_special_case _ _); [reflexivity|congruence].
  - intros s' mapping Hn Hb Hm. exact (Hflag s' mapping person raw mode ts Hn Hb Hm).
  - intros g known_ok rest. apply main_diagnose_patient_raises.
  - cbv zeta.
    assert (Hn : Graph.find_special_case flu_covid_graph (sympts_of ["rash"]) = None)
      by (vm_compute; reflexivity).
    assert (Hb : fst (build_model {| s_graph := flu_covid_graph; s_cached_model := None |}) =
                 Ok (fetch_graph flu_covid_graph)) by (vm_compute; reflexivity).
    assert (Hm : match_step (disease_nodes flu_covid_graph) (sympts_of ["rash"])
                   (min_matches_of_mode EmptyString) = []) by (vm_compute; reflexivity).
    destruct (Hflag {| s_graph := flu_covid_graph; s_cached_model := None |} _ "Ann" ["rash"]
                EmptyString 1%Z Hn Hb Hm) as [H1 H2].
    split; [exact H1|split; [exact H2|split]].
    + vm_compute. discriminate.
    + vm_compute. reflexivity.
Qed.

(** The first attempt for Rash on the Flu/Covid graph creates the bundle
    Rash, so a second attempt finds it. *)
Lemma is_unusual_empty_bundle_attempt_raises_witness :
  let s1 := snd (bayes_diagnose_patient {| s_graph := flu_covid_graph; s_cached_model := None |}
                   (fun _ _ => 1 # 2) "Ann" ["rash"] EmptyString 1) in
  Graph.find_special_case (s_graph s1) (sympts_of ["rash"]) <> None /\
  bayes_diagnose_patient s1 (fun _ _ => 1 # 2) "Bob" ["Rash "] "w" 2 = (Raised "AttributeError", s1).
Proof.
  intros s1.
  assert (Hc : Graph.find_special_case (s_graph s1) (sympts_of ["rash"]) <> None)
    by (vm_compute; discriminate).
  split; [exact Hc|].
  assert (Hc' : Graph.find_special_case (s_graph s1) (sympts_of ["Rash "]) <> None)
    by (vm_compute; discriminate).
  exact (proj1 (proj2 (is_unusual_empty_bundle_attempt_raises s1 (fun _ _ => 1 # 2) "Bob"
                         ["Rash "] "w" 2 Hc'))).
Defined.

(** ** Audit logging *)

Lemma audit_sink_down_raises (depth : nat) (st : store) :
  (forall q, audit_sink_down q = false ->
     run_ depth audit_sink_down q st = (Raised "RecursionError", st)) /\
  (forall action, log_audit depth audit_sink_down action st = (Raised "RecursionError", st)).
Proof.
  induction depth as [|d [IHr IHl]]; [split; reflexivity|].
  split.
  - intros q Hq. simpl. rewrite Hq. apply IHl.
  - intros action. simpl. rewrite (IHr (QAudit action) eq_refl).
    apply (IHr QAuditError eq_refl).
Qed.

(** C9: a failing audit sink is not absorbed. When the database accepts an
    operation's own write but refuses every audit record, [log_audit]
    raises at every recursion depth (each failed write re-enters
    [log_audit] through [_run]'s handler), and [merge_symptom], whose MERGE
    succeeded, raises instead of returning as it does when the audit write
    succeeds. *)
Theorem log_audit_failure_propagates :
  (forall depth action st,
     log_audit depth audit_sink_down action st = (Raised "RecursionError", st)) /\
  (forall d name st,
     merge_symptom (S (S d)) audit_sink_down name st =
       (Raised "RecursionError", st ++ [QOp name])) /\
  (forall d name st,
     merge_symptom (S (S (S d))) all_up name st =
       (Returned, st ++ [QOp name; QAudit "MERGE_SYMPTOM"])).
Proof.
  split; [|split].
  - intros depth action st. apply (audit_sink_down_raises depth st).
  - intros d name st. unfold merge_symptom.
    change (run_ (S d) audit_sink_down (QOp name) st) with (Returned, st ++ [QOp name]).
    cbv iota beta. rewrite (proj2 (audit_sink_down_raises (S d) _)).
    apply (audit_sink_down_raises (S d) _).
  - intros d name st. unfold merge_symptom. cbn [run_ log_audit all_up].
    now rewrite <- app_assoc.
Qed.

(** ** Nodes, edges and association lists *)

Lemma merge_name_elem {A} `{EqDecision A} (l : list A) (x y : A) :
  y ∈ Graph.merge_name l x <-> y ∈ l \/ y = x.
Proof.
  unfold Graph.merge_name. case_bool_decide.
  - split; [auto|]. intros [?| ->]; auto.
  - rewrite elem_of_app, list_elem_of_singleton. reflexivity.
Qed.

Lemma merge_name_NoDup {A} `{EqDecision A} (l : list A) (x : A) :
  NoDup l -> NoDup (Graph.merge_name l x).
Proof.
  intros H. unfold Graph.merge_name. case_bool_decide; [exact H|].
  apply NoDup_app. split; [exact H|]. split; [|apply NoDup_singleton].
  intros y Hy ->%list_elem_of_singleton. contradiction.
Qed.

Lemma merge_name_fixed {A} `{EqDecision A} (l : list A) (x : A) :
  x ∈ l -> Graph.merge_name l x = l.
Proof. intros H. unfold Graph.merge_name. now rewrite bool_decide_eq_true_2. Qed.

Lemma fold_merge_name_elem {A} `{EqDecision A} (xs l : list A) (y : A) :
  y ∈ fold_left Graph.merge_name xs l <-> y ∈ l \/ y ∈ xs.
Proof.
  revert l. induction xs as [|x xs IH]; intros l; simpl.
  - rewrite elem_of_nil. tauto.
  - rewrite IH, merge_name_elem, elem_of_cons. tauto.
Qed.

Lemma fold_merge_name_NoDup {A} `{EqDecision A} (xs l : list A) :
  NoDup l -> NoDup (fold_left Graph.merge_name xs l).
Proof.
  revert l. induction xs as [|x xs IH]; intros l H; simpl; [exact H|].
  apply IH, merge_name_NoDup, H.
Qed.

Lemma merge_edges_fold (es names : list string) :
  merge_edges es names = fold_left Graph.merge_name names es.
Proof. reflexivity. Qed.

Lemma assoc_get_elem {K V} `{EqDecision K} (l : list (K * V)) (k : K) :
  assoc_get l k = None <-> k ∉ map fst l.
Proof.
  induction l as [|[k' v] l IH]; simpl.
  - rewrite elem_of_nil. tauto.
  - rewrite elem_of_cons. case_bool_decide as E.
    + split; [discriminate|]. intros H. exfalso. auto.
    + rewrite IH. tauto.
Qed.

Lemma assoc_set_keys {K V} `{EqDecision K} (l : list (K * V)) (k : K) (v : V) :
  map fst (assoc_set l k v) =
  if bool_decide (k ∈ map fst l) then map fst l else map fst l ++ [k].
Proof.
  induction l as [|[k' v'] l IH]; simpl; [reflexivity|].
  destruct (decide (k = k')) as [<-|E].
  - rewrite (bool_decide_eq_true_2 (k = k)) by reflexivity. simpl.
    rewrite (bool_decide_eq_true_2 (k ∈ k :: map fst l)) by (apply elem_of_cons; auto).
    reflexivity.
  - rewrite (bool_decide_eq_false_2 (k = k')) by exact E. simpl. rewrite IH.
    destruct (decide (k ∈ map fst l)) as [Hk|Hk].
    + rewrite (bool_decide_eq_true_2 (k ∈ map fst l)) by exact Hk.
      rewrite (bool_decide_eq_true_2 (k ∈ k' :: map fst l)) by (apply elem_of_cons; auto).
      reflexivity.
    + rewrite (bool_decide_eq_false_2 (k ∈ map fst l)) by exact Hk.
      rewrite (bool_decide_eq_false_2 (k ∈ k' :: map fst l)); [reflexivity|].
      rewrite elem_of_cons. intros [?|?]; contradiction.
Qed.

Lemma assoc_set_elem {K V} `{EqDecision K} (l : list (K * V)) (k k' : K) (v : V) :
  k' ∈ map fst (assoc_set l k v) <-> k' ∈ map fst l \/ k' = k.
Proof.
  rewrite assoc_set_keys. case_bool_decide as E.
  - split; [auto|]. intros [?| ->]; auto.
  - rewrite elem_of_app, list_elem_of_singleton. reflexivity.
Qed.

Lemma assoc_set_NoDup {K V} `{EqDecision K} (l : list (K * V)) (k : K) (v : V) :
  NoDup (map fst l) -> NoDup (map fst (assoc_set l k v)).
Proof.
  intros H. rewrite assoc_set_keys. case_bool_decide as E; [exact H|].
  apply NoDup_app. split; [exact H|]. split; [|apply NoDup_singleton].
  intros y Hy ->%list_elem_of_singleton. contradiction.
Qed.

Lemma assoc_get_set {K V} `{EqDecision K} (l : list (K * V)) (k k' : K) (v : V) :
  assoc_get (assoc_set l k v) k' = if bool_decide (k' = k) then Some v else assoc_get l k'.
Proof.
  induction l as [|[k0 v0] l IH]; simpl; [reflexivity|].
  destruct (decide (k = k0)) as [<-|E].
  - rewrite (bool_decide_eq_true_2 (k = k)) by reflexivity. simpl.
    destruct (decide (k' = k)) as [->|E'].
    + rewrite !bool_decide_eq_true_2 by reflexivity. reflexivity.
    + rewrite !bool_decide_eq_false_2 by exact E'. reflexivity.
  - rewrite (bool_decide_eq_false_2 (k = k0)) by exact E. simpl. rewrite IH.
    destruct (decide (k' = k0)) as [->|E'].
    + rewrite (bool_decide_eq_true_2 (k0 = k0)) by reflexivity.
      rewrite (bool_decide_eq_false_2 (k0 = k)) by congruence. reflexivity.
    + rewrite !(bool_decide_eq_false_2 (k' = k0)) by exact E'. reflexivity.
Qed.

Lemma assoc_set_entries {K V} `{EqDecision K} (l : list (K * V)) (k k' : K) (v v' : V) :
  (k', v') ∈ assoc_set l k v -> (k', v') ∈ l \/ k' = k.
Proof.
  induction l as [|[k0 v0] l IH]; simpl.
  - intros ?%list_elem_of_singleton. right. congruence.
  - destruct (decide (k = k0)) as [<-|E].
    + rewrite bool_decide_eq_true_2 by reflexivity. rewrite elem_of_cons.
      intros [[= -> ->]|H]; [right; reflexivity|left; apply elem_of_cons; auto].
    + rewrite bool_decide_eq_false_2 by exact E. rewrite elem_of_cons.
      intros [[= -> ->]|H]; [left; apply elem_of_cons; auto|].
      destruct (IH H) as [?|?]; [left; apply elem_of_cons; auto|auto].
Qed.

(** ** Symptom-disease probabilities *)

Section Probabilities.
Local Open Scope Q_scope.

Lemma dict_set_fresh (d : prob_dict) (k : string) (v : Q) :
  k ∉ map fst d -> dict_set d k v = d ++ [(k, v)].
Proof.
  induction d as [|[k' v'] d IH]; simpl; [reflexivity|].
  rewrite not_elem_of_cons. intros [Hk Hd].
  destruct (String.eqb_spec k k'); [contradiction|]. f_equal. apply IH, Hd.
Qed.

Lemma fold_dict_set_fresh (f : string -> Q) (rows : list string) (acc : prob_dict) :
  NoDup rows -> (forall x, x ∈ rows -> x ∉ map fst acc) ->
  fold_left (fun acc d => dict_set acc d (f d)) rows acc = acc ++ map (fun d => (d, f d)) rows.
Proof.
  revert acc. induction rows as [|x rows IH]; intros acc Hnd Hf; simpl.
  - now rewrite app_nil_r.
  - apply NoDup_cons in Hnd as [Hx Hnd].
    rewrite dict_set_fresh by (apply Hf, elem_of_cons; auto).
    rewrite IH, <- app_assoc; [reflexivity|exact Hnd|].
    intros y Hy. rewrite map_app, elem_of_app. simpl. rewrite list_elem_of_singleton.
    intros [H| ->]; [|contradiction]. apply (Hf y); [apply elem_of_cons; auto|exact H].
Qed.

Lemma fold_Qplus (l : list Q) (a : Q) : fold_left Qplus l a == a + fold_right Qplus 0 l.
Proof.
  revert a. induction l as [|x l IH]; intros a; simpl; [ring|].
  rewrite IH. ring.
Qed.

Lemma sum_le (l : list Q) (x : Q) :
  (forall y, In y l -> 0 <= y) -> In x l -> x <= fold_right Qplus 0 l.
Proof.
  induction l as [|y l IH]; intros Hn Hx; [destruct Hx|simpl].
  assert (0 <= fold_right Qplus 0 l).
  { clear IH Hx. induction l as [|z l IHl]; simpl; [apply Qle_refl|].
    assert (0 <= z) by (apply Hn; simpl; auto).
    assert (0 <= fold_right Qplus 0 l) by (apply IHl; intros w Hw; apply Hn; simpl in *; tauto).
    lra. }
  destruct Hx as [<-|Hx].
  - lra.
  - assert (x <= fold_right Qplus 0 l) by (apply IH; auto; intros w Hw; apply Hn; simpl; auto).
    assert (0 <= y) by (apply Hn; simpl; auto). lra.
Qed.

Lemma sum_pos (l : list Q) : (forall y, In y l -> 0 < y) -> l <> [] -> 0 < fold_right Qplus 0 l.
Proof.
  intros Hp Hl. destruct l as [|x l]; [contradiction|]. simpl.
  assert (0 < x) by (apply Hp; simpl; auto).
  assert (x <= fold_right Qplus 0 (x :: l))
    by (apply sum_le; [intros y Hy; apply Qlt_le_weak, Hp, Hy|simpl; auto]).
  assert (0 <= fold_right Qplus 0 l).
  { destruct l as [|z l]; simpl; [apply Qle_refl|].
    apply (Qle_trans _ z); [apply Qlt_le_weak, Hp; simpl; auto|].
    apply (sum_le (z :: l)); [intros y Hy; apply Qlt_le_weak, Hp; simpl; auto|simpl; auto]. }
  lra.
Qed.

Lemma sum_div (l : list Q) (t : Q) :
  fold_right Qplus 0 (map (fun y => y / t) l) == fold_right Qplus 0 l / t.
Proof.
  induction l as [|x l IH]; simpl.
  - unfold Qdiv. ring.
  - rewrite IH. unfold Qdiv. ring.
Qed.

Lemma weight_pos (n : nat) : 0 < 1 / (inject_Z (Z.of_nat n) + 1).
Proof.
  assert (0 <= inject_Z (Z.of_nat n)).
  { change 0 with (inject_Z 0). rewrite <- Zle_Qle. lia. }
  unfold Qdiv. rewrite Qmult_1_l. apply Qinv_lt_0_compat. lra.
Qed.

Lemma weight_anti (a b : nat) :
  (a <= b)%nat -> 1 / (inject_Z (Z.of_nat b) + 1) <= 1 / (inject_Z (Z.of_nat a) + 1).
Proof.
  intros Hab.
  assert (0 <= inject_Z (Z.of_nat a)) by (change 0 with (inject_Z 0); rewrite <- Zle_Qle; lia).
  assert (inject_Z (Z.of_nat a) <= inject_Z (Z.of_nat b)) by (rewrite <- Zle_Qle; lia).
  apply Qle_shift_div_l; [lra|].
  assert (E : 1 / (inject_Z (Z.of_nat b) + 1) * (inject_Z (Z.of_nat a) + 1) ==
             (inject_Z (Z.of_nat a) + 1) / (inject_Z (Z.of_nat b) + 1))
    by (unfold Qdiv; ring).
  rewrite E.
  apply Qle_shift_div_r; lra.
Qed.

Lemma dict_get_map (h : string -> Q) (rows : list string) (d : string) :
  In d rows -> dict_get (map (fun x => (x, h x)) rows) d = Some (h d).
Proof.
  induction rows as [|x rows IH]; intros Hd; [destruct Hd|simpl].
  destruct (String.eqb_spec d x) as [->|Hne]; [reflexivity|].
  apply IH. destruct Hd; [congruence|assumption].
Qed.

Lemma disease_rows_elem (g : graph) (symptom d : string) :
  d ∈ Graph.disease_rows g symptom <-> (d, symptom) ∈ g_edges g.
Proof.
  unfold Graph.disease_rows.
  rewrite (merge_sort_Permutation (Graph.by_count_desc g)), elem_of_remove_dups.
  rewrite list_elem_of_In, in_map_iff, list_elem_of_In. split.
  - intros ([d' s] & <- & Hin). apply filter_In in Hin as [Hin Hs]. simpl in *.
    apply String.eqb_eq in Hs. subst. exact Hin.
  - intros Hin. exists (d, symptom). split; [reflexivity|].
    apply filter_In. split; [exact Hin|apply String.eqb_refl].
Qed.

Lemma disease_rows_NoDup (g : graph) (symptom : string) :
  NoDup (Graph.disease_rows g symptom).
Proof.
  unfold Graph.disease_rows. rewrite (merge_sort_Permutation (Graph.by_count_desc g)).
  apply NoDup_remove_dups.
Qed.

(** The shape of the result: the weight [1 / (symptom_count + 1)] of each
    row divided by their sum. *)
Lemma get_symptom_disease_probabilities_shape (g : graph) (symptom : string) :
  Graph.get_symptom_disease_probabilities g symptom =
    match Graph.disease_rows g symptom with
    | [] => []
    | _ :: _ =>
        map (fun d => (d, Graph.row_prob g d /
                          fold_left Qplus (map (Graph.row_prob g) (Graph.disease_rows g symptom)) 0))
          (Graph.disease_rows g symptom)
    end.
Proof.
  unfold Graph.get_symptom_disease_probabilities. cbv zeta.
  destruct (List.filter (fun e => String.eqb (snd e) symptom) (g_edges g)) as [|[d0 s0] es] eqn:E.
  - destruct (Graph.disease_rows g symptom) as [|r rs] eqn:Er; [reflexivity|exfalso].
    assert (Hr : r ∈ Graph.disease_rows g symptom) by (rewrite Er; left).
    apply disease_rows_elem in Hr. apply list_elem_of_In in Hr.
    assert (H : In (r, symptom) (List.filter (fun e => String.eqb (snd e) symptom) (g_edges g)))
      by (apply filter_In; split; [exact Hr|apply String.eqb_refl]).
    rewrite E in H. destruct H.
  - simpl Nat.eqb. cbv iota.
    assert (Hin : In (d0, s0) (List.filter (fun e => String.eqb (snd e) symptom) (g_edges g)))
      by (rewrite E; left; reflexivity).
    apply filter_In in Hin as [Hin Hs]. simpl in Hs. apply String.eqb_eq in Hs. subst s0.
    assert (Hd0 : d0 ∈ Graph.disease_rows g symptom)
      by (apply disease_rows_elem, list_elem_of_In, Hin).
    rewrite (fold_dict_set_fresh (Graph.row_prob g) (Graph.disease_rows g symptom) []);
      [|apply disease_rows_NoDup|intros; apply not_elem_of_nil].
    simpl. rewrite map_map. simpl.
    assert (Hpos : 0 < fold_left Qplus (map (Graph.row_prob g) (Graph.disease_rows g symptom)) 0).
    { rewrite fold_Qplus. apply (Qlt_le_trans _ (fold_right Qplus 0
        (map (Graph.row_prob g) (Graph.disease_rows g symptom)))); [|lra].
      apply sum_pos.
      - intros y (x & <- & _)%in_map_iff. apply weight_pos.
      - destruct (Graph.disease_rows g symptom); [inversion Hd0|discriminate]. }
    destruct (Qle_bool _ 0) eqn:Hb.
    + apply Qle_bool_iff in Hb. exfalso. exact (Qlt_not_le _ _ Hpos Hb).
    + destruct (Graph.disease_rows g symptom) as [|r rs]; [inversion Hd0|].
      rewrite map_map. reflexivity.
Qed.

Lemma normalised_props (p : string -> Q) (R : list string) :
  (forall d, 0 < p d) -> R <> [] ->
  fold_left Qplus (map snd (map (fun d => (d, p d / fold_left Qplus (map p R) 0)) R)) 0 == 1 /\
  (forall kv, In kv (map (fun d => (d, p d / fold_left Qplus (map p R) 0)) R) ->
     0 < snd kv <= 1).
Proof.
  intros Hp HR. set (T := fold_left Qplus (map p R) 0).
  assert (HT : T == fold_right Qplus 0 (map p R)) by (unfold T; rewrite fold_Qplus; ring).
  assert (HS : 0 < fold_right Qplus 0 (map p R)).
  { apply sum_pos; [intros y (x & <- & _)%in_map_iff; apply Hp|].
    destruct R; [contradiction|discriminate]. }
  split.
  - assert (E : map snd (map (fun d => (d, p d / T)) R) = map (fun y => y / T) (map p R))
      by (rewrite !map_map; reflexivity).
    rewrite E, fold_Qplus, sum_div, <- HT. field. lra.
  - intros kv (d & <- & Hd)%in_map_iff. simpl.
    assert (Hle : p d <= fold_right Qplus 0 (map p R)).
    { apply sum_le; [intros y (x & <- & _)%in_map_iff; apply Qlt_le_weak, Hp|].
      apply in_map, Hd. }
    split.
    + apply Qlt_shift_div_l; [lra|]. rewrite Qmult_0_l. apply Hp.
    + apply Qle_shift_div_r; [lra|]. lra.
Qed.

Lemma dict_get_map_inv (h : string -> Q) (rows : list string) (d : string) (v : Q) :
  dict_get (map (fun x => (x, h x)) rows) d = Some v -> In d rows /\ v = h d.
Proof.
  induction rows as [|x rows IH]; simpl; [discriminate|].
  destruct (String.eqb_spec d x) as [->|Hne].
  - intros [= <-]. auto.
  - intros H. destruct (IH H). auto.
Qed.

(** The mapping of [get_symptom_disease_probabilities(symptom)] is empty
    exactly when no disease has the symptom; otherwise its keys are the
    diseases with the symptom, each once, and its values lie in (0, 1]. *)
Theorem get_symptom_disease_probabilities_distribution (g : graph) (symptom : string) :
  let result := Graph.get_symptom_disease_probabilities g symptom in
  (result = [] <-> forall d, (d, symptom) ∉ g_edges g) /\
  NoDup (map fst result) /\
  (forall d, d ∈ map fst result <-> (d, symptom) ∈ g_edges g) /\
  (forall kv, In kv result -> 0 < snd kv <= 1).
Proof.
  intros result. unfold result. rewrite get_symptom_disease_probabilities_shape.
  pose proof (disease_rows_NoDup g symptom) as Hnd.
  pose proof (disease_rows_elem g symptom) as Hel.
  destruct (Graph.disease_rows g symptom) as [|r rs] eqn:Er.
  - split; [|split; [|split]].
    + split; [|reflexivity]. intros _ d Hd. apply Hel in Hd. inversion Hd.
    + constructor.
    + intros d. rewrite <- Hel. reflexivity.
    + intros kv [].
  - assert (Hfst : map fst (map (fun d => (d, Graph.row_prob g d /
        fold_left Qplus (map (Graph.row_prob g) (r :: rs)) 0)) (r :: rs)) = r :: rs).
    { rewrite map_map. simpl. f_equal. apply map_id. }
    split; [|split; [|split]].
    + split; [discriminate|]. intros H. exfalso. apply (H r), Hel. left.
    + rewrite Hfst. exact Hnd.
    + intros d. rewrite Hfst, Hel. reflexivity.
    + refine (proj2 (normalised_props _ _ _ _)); [intros; apply weight_pos|discriminate].
Qed.

(** In the mapping of [get_symptom_disease_probabilities(symptom)], a
    disease with no more symptoms than another has at least its
    probability. *)
Theorem get_symptom_disease_probabilities_fewer_symptoms (g : graph) (symptom d e : string)
    (pd pe : Q)
    (Hd : dict_get (Graph.get_symptom_disease_probabilities g symptom) d = Some pd)
    (He : dict_get (Graph.get_symptom_disease_probabilities g symptom) e = Some pe)
    (Hc : (Graph.symptom_count g d <= Graph.symptom_count g e)%nat) :
  pe <= pd.
Proof.
  rewrite get_symptom_disease_probabilities_shape in Hd, He.
  destruct (Graph.disease_rows g symptom) as [|r rs] eqn:Er; [discriminate|].
  set (T := fold_left Qplus (map (Graph.row_prob g) (r :: rs)) 0) in *.
  apply (dict_get_map_inv (fun x => Graph.row_prob g x / T)) in Hd as [Hd ->].
  apply (dict_get_map_inv (fun x => Graph.row_prob g x / T)) in He as [He ->].
  assert (HT : 0 < T).
  { unfold T. rewrite fold_Qplus.
    assert (0 < fold_right Qplus 0 (map (Graph.row_prob g) (r :: rs))); [|lra].
    apply sum_pos; [intros y (x & <- & _)%in_map_iff; apply weight_pos|discriminate]. }
  unfold Qdiv. apply Qmult_le_compat_r.
  - apply weight_anti, Hc.
  - apply Qinv_le_0_compat. lra.
Qed.

Lemma get_symptom_disease_probabilities_fewer_symptoms_witness :
  dict_get (Graph.get_symptom_disease_probabilities flu_covid_graph "Fever") "Flu" =
    Some (12 # 21) /\
  dict_get (Graph.get_symptom_disease_probabilities flu_covid_graph "Fever") "Covid" =
    Some (12 # 28) /\
  (Graph.symptom_count flu_covid_graph "Flu" <= Graph.symptom_count flu_covid_graph "Covid")%nat /\
  12 # 28 <= 12 # 21.
Proof.
  assert (Hd : dict_get (Graph.get_symptom_disease_probabilities flu_covid_graph "Fever") "Flu" =
    Some (12 # 21)) by (vm_compute; reflexivity).
  assert (He : dict_get (Graph.get_symptom_disease_probabilities flu_covid_graph "Fever") "Covid" =
    Some (12 # 28)) by (vm_compute; reflexivity).
  assert (Hc : (Graph.symptom_count flu_covid_graph "Flu" <=
                Graph.symptom_count flu_covid_graph "Covid")%nat) by (vm_compute; lia).
  split; [exact Hd|split; [exact He|split; [exact Hc|]]].
  exact (get_symptom_disease_probabilities_fewer_symptoms flu_covid_graph "Fever" "Flu" "Covid"
           _ _ Hd He Hc).
Defined.

End Probabilities.

(** ** Unknown symptoms, special cases, persons and diagnoses *)

Lemma filter_sublist {A} (f : A -> bool) (l : list A) : List.filter f l `sublist_of` l.
Proof.
  induction l as [|x l IH]; simpl; [constructor|].
  destruct (f x); [apply sublist_skip|apply sublist_cons]; exact IH.
Qed.

Lemma elem_of_filter_list {A} (f : A -> bool) (l : list A) (x : A) :
  x ∈ List.filter f l <-> x ∈ l /\ f x = true.
Proof. rewrite !list_elem_of_In. apply filter_In. Qed.

Lemma sympts_of_in_sym_set (raw : list string) (s : string) :
  In s (sympts_of raw) -> s ∈ sym_set (sympts_of raw).
Proof.
  intros Hs. apply in_sym_set. exists s. split; [exact Hs|].
  unfold sympts_of in Hs. apply in_map_iff in Hs as (r & <- & Hr).
  apply filter_In in Hr as [_ Hb].
  destruct (norm_idem r) as [E1 E2]. rewrite E2, E1. auto.
Qed.

Lemma sym_set_nil (L : list string) : sym_set L = [] -> forall s, s ∈ sym_set L -> False.
Proof. intros E s. rewrite E. apply not_elem_of_nil. Qed.

Lemma assoc_get_snoc {K V} `{EqDecision K} (l : list (K * V)) (k k' : K) (v : V) :
  assoc_get (l ++ [(k, v)]) k' =
  match assoc_get l k' with Some x => Some x | None => if bool_decide (k' = k) then Some v else None end.
Proof.
  induction l as [|[k0 v0] l IH]; simpl; [reflexivity|].
  destruct (bool_decide (k' = k0)); [reflexivity|exact IH].
Qed.

Lemma find_unknown_nil (g : graph) (symptoms : list string) :
  (forall s, In s symptoms -> s ∈ g_symptoms g) ->
  fst (Graph.find_unknown_symptoms g true symptoms) = [].
Proof.
  intros H. unfold Graph.find_unknown_symptoms, Graph.get_known_symptoms. simpl.
  induction symptoms as [|x l IH]; simpl; [reflexivity|].
  rewrite bool_decide_eq_true_2 by (apply H; left; reflexivity). simpl.
  apply IH. intros s Hs. apply H. right. exact Hs.
Qed.

(** [find_unknown_symptoms(symptoms)]: when the [Symptom] query answers, the
    result is the sub-list, in input order, of the given symptoms that are
    not [Symptom] nodes, and the store is untouched; when the query fails,
    every given symptom is reported unknown and the failure is audited as
    [GET_KNOWN_SYMPTOMS_ERROR]. *)
Theorem find_unknown_symptoms_result (g : graph) (symptoms : list string) :
  (fst (Graph.find_unknown_symptoms g true symptoms) `sublist_of` symptoms /\
   (forall s, s ∈ fst (Graph.find_unknown_symptoms g true symptoms) <->
              s ∈ symptoms /\ s ∉ g_symptoms g) /\
   snd (Graph.find_unknown_symptoms g true symptoms) = g) /\
  Graph.find_unknown_symptoms g false symptoms =
    (symptoms, Graph.log_audit g "GET_KNOWN_SYMPTOMS_ERROR").
Proof.
  unfold Graph.find_unknown_symptoms, Graph.get_known_symptoms. simpl.
  split; [split; [apply filter_sublist|split; [|reflexivity]]|].
  - intros s. rewrite elem_of_filter_list, negb_true_iff, bool_decide_eq_false. tauto.
  - f_equal. induction symptoms as [|x l IH]; simpl; [reflexivity|].
    rewrite IH. reflexivity.
Qed.

(** The unknown-symptom branch of [diagnose_patient]: after
    [upsert_special_case_with_patient(syms, person)] on the normalised
    symptom list [syms], none of [syms] is unknown any more, and
    [find_special_case(syms)] finds the case the upsert returned (the upsert
    returns no case only for an empty list); cases under other keys are
    unchanged. *)
Theorem upsert_with_patient_then_find (g : graph) (raw : list string) (person : string)
    (ts : Z) :
  let syms := sympts_of raw in
  let '(g', r) := Graph.upsert_special_case_with_patient g syms person ts in
  fst (Graph.find_unknown_symptoms g' true syms) = [] /\
  (exists c, Graph.find_special_case g' syms = Some c /\
             (syms = [] /\ r = None \/ syms <> [] /\ r = Some c)) /\
  (forall L, sym_key L <> sym_key syms ->
             Graph.find_special_case g' L = Graph.find_special_case g L).
Proof.
  cbv zeta. unfold Graph.upsert_special_case_with_patient.
  unfold upsert_special_case_with_patient at 1. cbv beta iota zeta.
  split; [|split].
  - apply find_unknown_nil. intros s Hs. simpl.
    apply fold_merge_name_elem. right. apply sympts_of_in_sym_set, Hs.
  - unfold Graph.find_special_case. simpl. rewrite lookup_insert_eq.
    eexists. split; [reflexivity|].
    destruct (sympts_of raw) as [|s l] eqn:Es.
    + left. split; reflexivity.
    + right. split; [discriminate|].
      destruct (sym_set (s :: l)) as [|x xs] eqn:Ex; [|reflexivity].
      exfalso. rewrite <- Es in Ex. apply (sym_set_nil _ Ex s).
      apply sympts_of_in_sym_set. rewrite Es. left. reflexivity.
  - intros L HL. unfold Graph.find_special_case. simpl.
    rewrite lookup_insert_ne by congruence. reflexivity.
Qed.

(** [upsert_special_case(symptoms)] stores the case under
    [_sym_key(symptoms)] whether or not it returns it: a new case gets hit
    count 1 and no patient list, an existing one its hit count plus one and
    its patient list unchanged; the case is linked to its symptoms that are
    already [Symptom] nodes, and to no other new one; the call returns
    [None] exactly when none of its symptoms is a node, and creates no
    [Symptom] node; every symptom list with the same symptom set then finds
    the stored case. *)
Theorem upsert_special_case_stores (g : graph) (symptoms : list string) (ts : Z) :
  let old := g_cases g !! sym_key symptoms in
  let '(g', r) := Graph.upsert_special_case g symptoms ts in
  g_symptoms g' = g_symptoms g /\
  (r = None <-> forall s, s ∈ sym_set symptoms -> s ∉ g_symptoms g) /\
  exists c,
    (forall L, (forall x, x ∈ sym_set L <-> x ∈ sym_set symptoms) ->
               Graph.find_special_case g' L = Some c) /\
    (r = None \/ r = Some c) /\
    b_hits c = match old with Some o => (b_hits o + 1)%Z | None => 1%Z end /\
    b_patients c = match old with Some o => b_patients o | None => None end /\
    (forall s, s ∈ b_edges c <->
       s ∈ match old with Some o => b_edges o | None => [] end \/
       (s ∈ sym_set symptoms /\ s ∈ g_symptoms g)).
Proof.
  intros old. unfold Graph.upsert_special_case. simpl.
  set (linked := List.filter (fun n => bool_decide (n ∈ g_symptoms g)) (sym_set symptoms)).
  assert (Hl : forall s, s ∈ linked <-> s ∈ sym_set symptoms /\ s ∈ g_symptoms g).
  { intros s. unfold linked. rewrite elem_of_filter_list, bool_decide_eq_true. reflexivity. }
  split; [reflexivity|split].
  - split.
    + destruct linked as [|x xs]; [|discriminate]. intros _ s Hs Hg.
      apply (not_elem_of_nil s), Hl. auto.
    + intros Hn. destruct linked as [|x xs]; [reflexivity|].
      exfalso. assert (Hx : x ∈ x :: xs) by (apply elem_of_cons; left; reflexivity).
      apply Hl in Hx as [H1 H2]. exact (Hn x H1 H2).
  - eexists. split; [|split; [|split; [|split]]].
    + intros L HL. unfold Graph.find_special_case. simpl.
      unfold sym_key at 1. rewrite (canonical_ext L symptoms HL). fold (sym_key symptoms).
      rewrite lookup_insert_eq. reflexivity.
    + destruct linked; [left|right]; reflexivity.
    + unfold Graph.merged_case. fold old. destruct old; reflexivity.
    + unfold Graph.merged_case. fold old. destruct old; reflexivity.
    + intros s. simpl. rewrite merge_edges_fold, fold_merge_name_elem, Hl.
      unfold Graph.merged_case. fold old. destruct old; reflexivity.
Qed.

(** Once a special case exists without a patient list (as
    [upsert_special_case] creates it), [upsert_special_case_with_patient]
    never gives it one: [$patient IN null] is [null] and [null + [$patient]]
    is [null].  The hit count still grows when the case is the one upserted. *)
Theorem upsert_with_patient_keeps_null_patients (g : graph) (symptoms : list string)
    (person : string) (ts : Z) (k : string) (c : bundle)
    (Hc : g_cases g !! k = Some c) (Hp : b_patients c = None) :
  exists c',
    g_cases (fst (Graph.upsert_special_case_with_patient g symptoms person ts)) !! k = Some c' /\
    b_patients c' = None /\
    b_hits c' = (if bool_decide (k = sym_key symptoms) then b_hits c + 1 else b_hits c)%Z.
Proof.
  unfold Graph.upsert_special_case_with_patient, upsert_special_case_with_patient. simpl.
  destruct (decide (k = sym_key symptoms)) as [->|Hne].
  - rewrite bool_decide_eq_true_2 by reflexivity. rewrite lookup_insert_eq.
    eexists. split; [reflexivity|]. unfold merged_bundle. rewrite Hc, Hp. simpl. auto.
  - rewrite bool_decide_eq_false_2 by exact Hne. rewrite lookup_insert_ne by congruence.
    eexists. split; [exact Hc|]. auto.
Qed.

Lemma upsert_with_patient_keeps_null_patients_witness :
  let g := fst (Graph.upsert_special_case flu_covid_graph ["fever "] 1) in
  exists c c',
    g_cases g !! "Fever" = Some c /\ b_patients c = None /\
    g_cases (fst (Graph.upsert_special_case_with_patient g ["Fever"] "Ann" 2)) !! "Fever" = Some c' /\
    b_patients c' = None /\ b_hits c' = 2%Z.
Proof.
  intros g.
  assert (Hc : g_cases g !! "Fever" = Some
     {| b_sym_key := "Fever"; b_symptoms := ["Fever"]; b_first_seen := 1; b_last_seen := None;
        b_hits := 1; b_patients := None; b_edges := ["Fever"] |}) by (vm_compute; reflexivity).
  destruct (upsert_with_patient_keeps_null_patients g ["Fever"] "Ann" 2 "Fever" _ Hc
              eq_refl) as (c' & H1 & H2 & H3).
  eexists; exists c'. split; [exact Hc|]. split; [reflexivity|]. split; [exact H1|].
  split; [exact H2|]. rewrite H3. vm_compute. reflexivity.
Defined.

(** [create_diagnosis(person, disease, confidence)] always audits
    [CREATE_DIAGNOSIS], but records the diagnosis only when both the
    [Person] and the [Disease] node exist: then the pair maps to the new
    confidence and time, replacing an earlier diagnosis of the pair; the
    diagnoses of other pairs, and the persons and diseases, never change. *)
Theorem create_diagnosis_records (g : graph) (person disease : string) (confidence : Q)
    (ts : Z) :
  let g' := Graph.create_diagnosis g person disease confidence ts in
  g_audit g' = g_audit g ++ ["CREATE_DIAGNOSIS"] /\
  g_persons g' = g_persons g /\ g_diseases g' = g_diseases g /\
  (person ∈ map fst (g_persons g) -> disease ∈ g_diseases g ->
   assoc_get (g_diagnoses g') (person, disease) = Some (confidence, ts)) /\
  (person ∉ map fst (g_persons g) \/ disease ∉ g_diseases g -> g_diagnoses g' = g_diagnoses g) /\
  (forall k, k <> (person, disease) -> assoc_get (g_diagnoses g') k = assoc_get (g_diagnoses g) k).
Proof.
  unfold Graph.create_diagnosis.
  destruct (decide (person ∈ map fst (g_persons g))) as [Hp|Hp];
  [destruct (decide (disease ∈ g_diseases g)) as [Hd|Hd]|].
  - rewrite (bool_decide_eq_true_2 _ Hp), (bool_decide_eq_true_2 _ Hd). simpl.
    split; [reflexivity|split; [reflexivity|split; [reflexivity|split; [|split]]]].
    + intros _ _. rewrite assoc_get_set, bool_decide_eq_true_2; reflexivity.
    + intros [H|H]; contradiction.
    + intros k Hk. rewrite assoc_get_set, bool_decide_eq_false_2 by exact Hk. reflexivity.
  - rewrite (bool_decide_eq_true_2 _ Hp), (bool_decide_eq_false_2 _ Hd). simpl.
    repeat split; try reflexivity. intros _ H. contradiction.
  - rewrite (bool_decide_eq_false_2 _ Hp). simpl.
    repeat split; try reflexivity. intros H. contradiction.
Qed.

(** [merge_person(name, role)]: a new person gets the given role, and a
    person already present keeps the role it has ([coalesce]); no other
    person changes. *)
Theorem merge_person_role (g : graph) (name role : string) :
  assoc_get (g_persons (Graph.merge_person g name role)) name =
    match assoc_get (g_persons g) name with Some r => Some r | None => Some role end /\
  (forall n, n <> name ->
     assoc_get (g_persons (Graph.merge_person g name role)) n = assoc_get (g_persons g) n).
Proof.
  unfold Graph.merge_person. simpl. split.
  - destruct (assoc_get (g_persons g) name) eqn:E; [exact E|].
    rewrite assoc_get_snoc, E, bool_decide_eq_true_2; reflexivity.
  - intros n Hn. destruct (assoc_get (g_persons g) name); [reflexivity|].
    rewrite assoc_get_snoc. destruct (assoc_get (g_persons g) n); [reflexivity|].
    rewrite bool_decide_eq_false_2 by exact Hn. reflexivity.
Qed.

(** ** Loading the knowledge file *)

Lemma load_pair_facts (g : graph) (d s : string) :
  g_diseases (load_pair g (d, s)) = Graph.merge_name (g_diseases g) d /\
  g_symptoms (load_pair g (d, s)) = Graph.merge_name (g_symptoms g) s /\
  g_edges (load_pair g (d, s)) = Graph.merge_name (g_edges g) (d, s) /\
  g_persons (load_pair g (d, s)) = g_persons g /\
  g_diagnoses (load_pair g (d, s)) = g_diagnoses g /\
  g_cases (load_pair g (d, s)) = g_cases g.
Proof.
  unfold load_pair, Graph.connect_disease_symptom. simpl.
  rewrite (bool_decide_eq_true_2 (d ∈ Graph.merge_name (g_diseases g) d))
    by (apply merge_name_elem; right; reflexivity).
  rewrite (bool_decide_eq_true_2 (s ∈ Graph.merge_name (g_symptoms g) s))
    by (apply merge_name_elem; right; reflexivity).
  simpl. repeat split.
Qed.

Lemma fold_load_pair (ps : list (string * string)) (g : graph) :
  g_diseases (fold_left load_pair ps g) = fold_left Graph.merge_name (map fst ps) (g_diseases g) /\
  g_symptoms (fold_left load_pair ps g) = fold_left Graph.merge_name (map snd ps) (g_symptoms g) /\
  g_edges (fold_left load_pair ps g) = fold_left Graph.merge_name ps (g_edges g) /\
  g_persons (fold_left load_pair ps g) = g_persons g /\
  g_diagnoses (fold_left load_pair ps g) = g_diagnoses g /\
  g_cases (fold_left load_pair ps g) = g_cases g.
Proof.
  revert g. induction ps as [|[d s] ps IH]; intros g; cbn [fold_left map fst snd];
    [repeat split|].
  destruct (IH (load_pair g (d, s))) as (H1 & H2 & H3 & H4 & H5 & H6).
  destruct (load_pair_facts g d s) as (E1 & E2 & E3 & E4 & E5 & E6).
  rewrite H1, H2, H3, H4, H5, H6, E1, E2, E3, E4, E5, E6. repeat split.
Qed.

Lemma fold_lines (extract : string -> list (string * string)) (lines : list string) (g : graph) :
  fold_left (fun g line => fold_left load_pair (extract line) g) lines g =
  fold_left load_pair (flat_map extract lines) g.
Proof.
  revert g. induction lines as [|l lines IH]; intros g; simpl; [reflexivity|].
  rewrite IH, fold_left_app. reflexivity.
Qed.

Lemma read_knowledge_file_graph (g : graph) (file : option string) :
  snd (read_knowledge_file g file) =
  Graph.log_audit g (match file with
                     | None => "KNOWLEDGE_FILE_READ_ERROR"
                     | Some _ => "KNOWLEDGE_FILE_READ" end) /\
  forall g2, fst (read_knowledge_file g2 file) = fst (read_knowledge_file g file).
Proof. destruct file; split; reflexivity. Qed.

Lemma load_unfold (g : graph) (file : option string) (extract : string -> list (string * string)) :
  load g file extract =
  Graph.log_audit
    (fold_left load_pair (flat_map extract (fst (read_knowledge_file g file)))
       (snd (read_knowledge_file g file)))
    "KNOWLEDGE_GRAPH_POPULATED".
Proof.
  unfold load. destruct (read_knowledge_file g file) as [lines g1]. simpl.
  rewrite fold_lines. reflexivity.
Qed.

Lemma load_nodes (g : graph) (file : option string) (extract : string -> list (string * string)) :
  let ps := flat_map extract (fst (read_knowledge_file g file)) in
  g_diseases (load g file extract) = fold_left Graph.merge_name (map fst ps) (g_diseases g) /\
  g_symptoms (load g file extract) = fold_left Graph.merge_name (map snd ps) (g_symptoms g) /\
  g_edges (load g file extract) = fold_left Graph.merge_name ps (g_edges g) /\
  g_persons (load g file extract) = g_persons g /\
  g_diagnoses (load g file extract) = g_diagnoses g /\
  g_cases (load g file extract) = g_cases g.
Proof.
  intros ps. rewrite load_unfold. fold ps.
  set (G := snd (read_knowledge_file g file)).
  assert (HG : g_diseases G = g_diseases g /\ g_symptoms G = g_symptoms g /\
               g_edges G = g_edges g /\ g_persons G = g_persons g /\
               g_diagnoses G = g_diagnoses g /\ g_cases G = g_cases g).
  { unfold G. rewrite (proj1 (read_knowledge_file_graph g file)). repeat split. }
  destruct HG as (G1 & G2 & G3 & G4 & G5 & G6).
  destruct (fold_load_pair ps G) as (H1 & H2 & H3 & H4 & H5 & H6).
  unfold Graph.log_audit. cbn [g_diseases g_symptoms g_edges g_persons g_diagnoses g_cases].
  rewrite H1, H2, H3, H4, H5, H6, G1, G2, G3, G4, G5, G6. repeat split.
Qed.

Lemma fold_merge_name_all {A} `{EqDecision A} (xs l : list A) :
  (forall x, x ∈ xs -> x ∈ l) -> fold_left Graph.merge_name xs l = l.
Proof.
  revert l. induction xs as [|x xs IH]; intros l H; simpl; [reflexivity|].
  rewrite merge_name_fixed by (apply H, elem_of_cons; left; reflexivity).
  apply IH. intros y Hy. apply H, elem_of_cons. right. exact Hy.
Qed.

(** [load(fp)]: the diseases, symptoms and [HAS_SYMPTOM] edges after the
    load are exactly those before it together with the pairs extracted from
    the lines [read_knowledge_file] returns (both ends of every pair become
    nodes and the pair an edge); persons, diagnoses and special cases are
    untouched.  A missing file changes nothing but the audit trail, which
    gets [KNOWLEDGE_FILE_READ_ERROR] and then [KNOWLEDGE_GRAPH_POPULATED]. *)
Theorem load_extends_graph (g : graph) (file : option string)
    (extract : string -> list (string * string)) :
  let ps := flat_map extract (fst (read_knowledge_file g file)) in
  let g' := load g file extract in
  (forall d, d ∈ g_diseases g' <-> d ∈ g_diseases g \/ d ∈ map fst ps) /\
  (forall s, s ∈ g_symptoms g' <-> s ∈ g_symptoms g \/ s ∈ map snd ps) /\
  (forall e, e ∈ g_edges g' <-> e ∈ g_edges g \/ e ∈ ps) /\
  g_persons g' = g_persons g /\ g_diagnoses g' = g_diagnoses g /\ g_cases g' = g_cases g /\
  load g None extract =
    Graph.log_audit (Graph.log_audit g "KNOWLEDGE_FILE_READ_ERROR") "KNOWLEDGE_GRAPH_POPULATED".
Proof.
  intros ps g'. destruct (load_nodes g file extract) as (H1 & H2 & H3 & H4 & H5 & H6).
  fold ps in H1, H2, H3. fold g' in H1, H2, H3, H4, H5, H6.
  split; [|split; [|split; [|split; [|split; [|split]]]]].
  - intros d. rewrite H1. apply fold_merge_name_elem.
  - intros s. rewrite H2. apply fold_merge_name_elem.
  - intros e. rewrite H3. apply fold_merge_name_elem.
  - exact H4.
  - exact H5.
  - exact H6.
  - reflexivity.
Qed.

(** Loading the same file twice gives the same diseases, symptoms and
    [HAS_SYMPTOM] edges as loading it once: the [MERGE]s of the second load
    find every node and edge in place. *)
Theorem load_idempotent (g : graph) (file : option string)
    (extract : string -> list (string * string)) :
  let g1 := load g file extract in
  let g2 := load g1 file extract in
  g_diseases g2 = g_diseases g1 /\ g_symptoms g2 = g_symptoms g1 /\ g_edges g2 = g_edges g1.
Proof.
  intros g1 g2. unfold g2.
  destruct (load_nodes g1 file extract) as (H1 & H2 & H3 & _).
  rewrite (proj2 (read_knowledge_file_graph g file) g1) in H1, H2, H3.
  destruct (load_extends_graph g file extract) as (E1 & E2 & E3 & _).
  fold g1 in E1, E2, E3.
  split; [|split]; [rewrite H1|rewrite H2|rewrite H3]; apply fold_merge_name_all; intros x Hx.
  - apply E1. right. exact Hx.
  - apply E2. right. exact Hx.
  - apply E3. right. exact Hx.
Qed.

(** ** Reading the knowledge file *)

Lemma lstrip_in (l : list ascii) (x : ascii) : In x (lstrip_l l) -> In x l.
Proof.
  induction l as [|c l IH]; simpl; [tauto|].
  destruct (py_isspace c); simpl; auto.
Qed.

Lemma strip_in (l : list ascii) (x : ascii) : In x (strip_l l) -> In x l.
Proof.
  unfold strip_l. intros H. apply in_rev, lstrip_in, in_rev, lstrip_in in H. exact H.
Qed.

Lemma strip_snoc_space (m : list ascii) (c : ascii) :
  py_isspace c = true -> strip_l (m ++ [c]) = strip_l m.
Proof.
  intros Hc. unfold strip_l. f_equal.
  induction m as [|x m IH]; simpl.
  - rewrite Hc. reflexivity.
  - destruct (py_isspace x) eqn:Ex; [exact IH|].
    change (x :: m ++ [c]) with ((x :: m) ++ [c]). rewrite rev_app_distr. simpl.
    rewrite Hc. reflexivity.
Qed.

Lemma universal_newlines_no_cr (n : nat) (l : list ascii) :
  length l <= n -> ~ In "013"%char (universal_newlines l).
Proof.
  revert l. induction n as [|n IH]; intros l Hl.
  - destruct l; [simpl; tauto|simpl in Hl; lia].
  - destruct l as [|c l]; [simpl; tauto|]. simpl in Hl. simpl.
    destruct (Ascii.eqb c "013") eqn:Ec.
    + destruct l as [|c2 l'].
      * simpl. intros [H|H]; [discriminate|exact H].
      * destruct (Ascii.eqb c2 "010").
        -- intros [H|H]; [discriminate|]. revert H. apply (IH l'). simpl in Hl. lia.
        -- intros [H|H]; [discriminate|]. revert H. apply (IH (c2 :: l')). simpl in *. lia.
    + intros [H|H].
      * subst c. discriminate.
      * revert H. apply (IH l). lia.
Qed.

Lemma universal_newlines_id (l : list ascii) :
  ~ In "013"%char l -> universal_newlines l = l.
Proof.
  induction l as [|c l IH]; intros H; simpl; [reflexivity|].
  destruct (Ascii.eqb_spec c "013") as [->|Hc]; [exfalso; apply H; left; reflexivity|].
  rewrite IH; [reflexivity|]. intros H'. apply H. right. exact H'.
Qed.

Lemma split_lines_chars (l cur p : list ascii) (x : ascii) :
  In p (split_lines cur l) -> In x p -> In x cur \/ In x l.
Proof.
  revert cur. induction l as [|c l IH]; intros cur Hp Hx; simpl in Hp.
  - destruct cur; simpl in Hp; [tauto|]. destruct Hp as [<-|[]].
    left. apply in_rev. exact Hx.
  - destruct (Ascii.eqb c "010").
    + destruct Hp as [<-|Hp].
      * apply in_app_or in Hx as [Hx|[<-|[]]]; [|right; left; reflexivity].
        left. apply (proj2 (in_rev _ _)), Hx.
      * destruct (IH [] Hp Hx) as [[]|H]. right. right. exact H.
    + destruct (IH (c :: cur) Hp Hx) as [[<-|H]|H].
      * right. left. reflexivity.
      * left. exact H.
      * right. right. exact H.
Qed.

Lemma split_lines_shape (l cur p : list ascii) :
  ~ In "010"%char cur -> In p (split_lines cur l) ->
  exists m, ~ In "010"%char m /\ (p = m \/ p = m ++ ["010"%char]).
Proof.
  revert cur. induction l as [|c l IH]; intros cur Hcur Hp; simpl in Hp.
  - destruct cur; simpl in Hp; [tauto|]. destruct Hp as [<-|[]].
    exists (rev (a :: cur)). split; [|left; reflexivity].
    rewrite <- in_rev. exact Hcur.
  - destruct (Ascii.eqb_spec c "010") as [->|Hc].
    + destruct Hp as [<-|Hp].
      * exists (rev cur). split; [rewrite <- in_rev; exact Hcur|right; reflexivity].
      * apply (IH [] (fun H => H) Hp).
    + apply (IH (c :: cur)); [|exact Hp].
      intros [H|H]; [exact (Hc H)|exact (Hcur H)].
Qed.

Lemma split_lines_snoc (m r cur : list ascii) :
  ~ In "010"%char m ->
  split_lines cur (m ++ "010"%char :: r) = (rev cur ++ m ++ ["010"%char]) :: split_lines [] r.
Proof.
  revert cur. induction m as [|c m IH]; intros cur Hm; simpl.
  - reflexivity.
  - destruct (Ascii.eqb_spec c "010") as [->|Hc]; [exfalso; apply Hm; left; reflexivity|].
    rewrite IH by (intros H; apply Hm; right; exact H). simpl.
    rewrite <- app_assoc. reflexivity.
Qed.

Lemma split_lines_last (m cur : list ascii) :
  ~ In "010"%char m -> rev cur ++ m <> [] -> split_lines cur m = [rev cur ++ m].
Proof.
  revert cur. induction m as [|c m IH]; intros cur Hm Hne; simpl.
  - rewrite app_nil_r in *. destruct cur; [contradiction|reflexivity].
  - destruct (Ascii.eqb_spec c "010") as [->|Hc]; [exfalso; apply Hm; left; reflexivity|].
    rewrite IH.
    + simpl. rewrite <- app_assoc. reflexivity.
    + intros H. apply Hm. right. exact H.
    + simpl. intros H. apply app_eq_nil in H as [H _]. apply app_eq_nil in H as [_ H].
      discriminate.
Qed.

Lemma list_ascii_of_string_append (a b : string) :
  list_ascii_of_string (a ++ b) = list_ascii_of_string a ++ list_ascii_of_string b.
Proof. induction a as [|c a IH]; simpl; [reflexivity|]. rewrite IH. reflexivity. Qed.

Lemma py_strip_chars (s : string) : list_ascii_of_string (py_strip s) = strip_l (list_ascii_of_string s).
Proof. unfold py_strip. apply list_ascii_of_string_of_list_ascii. Qed.

Lemma clean_line_strip (line : string) :
  clean_line line ->
  strip_l (list_ascii_of_string line) = list_ascii_of_string line /\
  list_ascii_of_string line <> [].
Proof.
  intros (Hne & Hs & _ & _). split.
  - rewrite <- py_strip_chars, Hs. reflexivity.
  - intros H. apply Hne. rewrite <- (string_of_list_ascii_of_string line), H. reflexivity.
Qed.

(** [read_knowledge_file(fp)]: every returned line is non-empty, already
    stripped, and holds no line break (["\n"], or ["\r"] which text mode
    turns into ["\n"]); the read is audited as [KNOWLEDGE_FILE_READ], and a
    missing file gives no line and the audit [KNOWLEDGE_FILE_READ_ERROR]. *)
Theorem read_knowledge_file_lines (g : graph) (file : option string) :
  let '(lines, g') := read_knowledge_file g file in
  Forall clean_line lines /\
  g' = Graph.log_audit g (match file with
                          | None => "KNOWLEDGE_FILE_READ_ERROR"
                          | Some _ => "KNOWLEDGE_FILE_READ" end) /\
  (file = None -> lines = []).
Proof.
  destruct file as [text|]; simpl; [|repeat split; constructor].
  split; [|split; [reflexivity|discriminate]].
  apply List.Forall_forall. intros line Hl.
  apply in_map_iff in Hl as (s & <- & Hs). apply filter_In in Hs as [Hs Hb].
  apply in_map_iff in Hs as (p & <- & Hp).
  unfold nonblank in Hb. rewrite list_ascii_of_string_of_list_ascii in Hb.
  unfold clean_line. rewrite py_strip_chars, list_ascii_of_string_of_list_ascii.
  split; [|split; [|split]].
  - unfold py_strip. rewrite ?list_ascii_of_string_of_list_ascii.
    destruct (strip_l p); [discriminate|]. simpl. discriminate.
  - unfold py_strip at 1. rewrite py_strip_chars.
    rewrite (stripped_strip _ (strip_stripped _)). reflexivity.
  - destruct (split_lines_shape _ [] p (fun H => H) Hp) as (m & Hm & [->| ->]).
    + intros H. apply Hm, strip_in, H.
    + rewrite strip_snoc_space by reflexivity. intros H. apply Hm, strip_in, H.
  - intros H. apply strip_in in H.
    destruct (split_lines_chars _ [] p _ Hp H) as [[]|H'].
    revert H'. apply (universal_newlines_no_cr (length (list_ascii_of_string text))). lia.
Qed.

Lemma read_lines_join (lines : list string) :
  Forall clean_line lines ->
  map py_strip (List.filter nonblank (map string_of_list_ascii
    (split_lines [] (list_ascii_of_string (join (String "010" EmptyString) lines))))) = lines.
Proof.
  induction lines as [|x [|y rest] IH]; intros Hall.
  - reflexivity.
  - inversion Hall as [|? ? Hx _]. destruct (clean_line_strip x Hx) as [Hsx Hnx].
    destruct Hx as (_ & Hpx & Hn & _).
    assert (Hb : nonblank (string_of_list_ascii (list_ascii_of_string x)) = true).
    { unfold nonblank. rewrite list_ascii_of_string_of_list_ascii, Hsx.
      destruct (list_ascii_of_string x); [contradiction|reflexivity]. }
    change (join (String "010" EmptyString) [x]) with x.
    rewrite split_lines_last by (simpl; assumption).
    change (rev [] ++ list_ascii_of_string x) with (list_ascii_of_string x).
    cbn [map List.filter]. rewrite Hb. cbn [map].
    rewrite string_of_list_ascii_of_string, Hpx. reflexivity.
  - inversion Hall as [|? ? Hx Hrest]. destruct (clean_line_strip x Hx) as [Hsx Hnx].
    destruct Hx as (_ & Hpx & Hn & _).
    change (join (String "010" EmptyString) (x :: y :: rest))
      with (x ++ String "010" EmptyString ++ join (String "010" EmptyString) (y :: rest))%string.
    rewrite !list_ascii_of_string_append.
    change (list_ascii_of_string (String "010" EmptyString)) with ["010"%char].
    change (["010"%char] ++ ?r) with ("010"%char :: r).
    rewrite split_lines_snoc by exact Hn.
    change (rev [] ++ ?m) with m.
    assert (Hsn : strip_l (list_ascii_of_string x ++ ["010"%char]) = list_ascii_of_string x)
      by (rewrite strip_snoc_space by reflexivity; exact Hsx).
    assert (Hb : nonblank (string_of_list_ascii (list_ascii_of_string x ++ ["010"%char])) = true).
    { unfold nonblank. rewrite list_ascii_of_string_of_list_ascii, Hsn.
      destruct (list_ascii_of_string x); [contradiction|reflexivity]. }
    cbn [map List.filter]. rewrite Hb. cbn [map]. f_equal.
    + unfold py_strip. rewrite list_ascii_of_string_of_list_ascii, Hsn.
      apply string_of_list_ascii_of_string.
    + apply IH, Hrest.
Qed.

(** [read_knowledge_file] returns exactly the lines of a file written as
    non-empty, stripped lines without line breaks, joined by ["\n"]. *)
Theorem read_knowledge_file_round_trip (g : graph) (lines : list string) :
  Forall clean_line lines ->
  fst (read_knowledge_file g (Some (join (String "010" EmptyString) lines))) = lines.
Proof.
  intros Hall. simpl. rewrite universal_newlines_id; [apply read_lines_join, Hall|].
  clear g. induction lines as [|x [|y rest] IH].
  - simpl. tauto.
  - inversion Hall as [|? ? (_ & _ & _ & Hr) _]. exact Hr.
  - inversion Hall as [|? ? (_ & _ & _ & Hr) Hrest].
    change (join (String "010" EmptyString) (x :: y :: rest))
      with (x ++ String "010" EmptyString ++ join (String "010" EmptyString) (y :: rest))%string.
    rewrite !list_ascii_of_string_append. simpl.
    intros [H1|[H2|H3]]%in_app_or; [exact (Hr H1)|discriminate|exact (IH Hrest H3)].
Qed.

Lemma read_knowledge_file_round_trip_witness :
  Forall clean_line ["Flu causes fever"; "Covid causes cough"] /\
  fst (read_knowledge_file empty_graph
    (Some (join (String "010" EmptyString) ["Flu causes fever"; "Covid causes cough"]))) =
  ["Flu causes fever"; "Covid causes cough"].
Proof.
  assert (H : Forall clean_line ["Flu causes fever"; "Covid causes cough"]).
  { assert (C : forall l, clean_line l <->
      l <> EmptyString /\ py_strip l = l /\
      ~ In "010"%char (list_ascii_of_string l) /\ ~ In "013"%char (list_ascii_of_string l))
      by reflexivity.
    apply List.Forall_forall. intros l Hl. apply C.
    destruct Hl as [<-|[<-|[]]];
      (split; [discriminate|split; [vm_compute; reflexivity|]]);
      (split; intros K; repeat (destruct K as [K|K]; [discriminate K|]); exact K). }
  split; [exact H|]. exact (read_knowledge_file_round_trip empty_graph _ H).
Defined.

(** ** The mapping of [_fetch_graph] and the cached model *)

(** [_fetch_graph()]: each row is a disease node with its symptoms, none
    empty, a disease has a row exactly when it has a [HAS_SYMPTOM] edge, and
    the variables of the network built from the mapping are exactly the
    diseases with an edge and the symptoms they reach, each once. *)
Theorem fetch_graph_rows (g : graph) :
  (forall d syms, In (d, syms) (fetch_graph g) ->
     d ∈ g_diseases g /\ syms <> [] /\ (forall s, In s syms <-> (d, s) ∈ g_edges g)) /\
  (forall d, d ∈ g_diseases g -> (exists s, (d, s) ∈ g_edges g) ->
     exists syms, In (d, syms) (fetch_graph g)) /\
  NoDup (model_variables (fetch_graph g)) /\
  (forall x, x ∈ model_variables (fetch_graph g) <->
     exists d s, d ∈ g_diseases g /\ (d, s) ∈ g_edges g /\ (x = d \/ x = s)).
Proof.
  assert (Hrow : forall d s, In s (map snd (List.filter (fun e => String.eqb (fst e) d) (g_edges g)))
                 <-> (d, s) ∈ g_edges g).
  { intros d s. rewrite in_map_iff, list_elem_of_In. split.
    - intros ([d' s'] & <- & Hin). apply filter_In in Hin as [Hin Hd].
      simpl in Hd. apply String.eqb_eq in Hd. subst. exact Hin.
    - intros Hin. exists (d, s). split; [reflexivity|]. apply filter_In.
      split; [exact Hin|]. apply String.eqb_refl. }
  assert (Hf : forall d syms, In (d, syms) (fetch_graph g) <->
     In d (g_diseases g) /\ syms <> [] /\
     syms = map snd (List.filter (fun e => String.eqb (fst e) d) (g_edges g))).
  { intros d syms. unfold fetch_graph. rewrite filter_In, in_map_iff.
    simpl. rewrite negb_true_iff, bool_decide_eq_false. split.
    - intros ((d' & [= <- <-] & Hd) & Hne). auto.
    - intros (Hd & Hne & ->). split; [|exact Hne]. exists d. auto. }
  split; [|split; [|split]].
  - intros d syms Hin. apply Hf in Hin as (Hd & Hne & ->).
    split; [apply list_elem_of_In, Hd|split; [exact Hne|apply Hrow]].
  - intros d Hd (s & Hs). eexists. apply Hf. split; [apply list_elem_of_In, Hd|].
    split; [|reflexivity]. intros He. apply Hrow in Hs. rewrite He in Hs. destruct Hs.
  - apply NoDup_remove_dups.
  - intros x. unfold model_variables. rewrite elem_of_remove_dups, list_elem_of_In, in_flat_map.
    split.
    + intros ([d syms] & Hin & Hx). apply in_flat_map in Hx as (s & Hs & Hx).
      apply Hf in Hin as (Hd & _ & ->). apply Hrow in Hs.
      exists d, s. split; [apply list_elem_of_In, Hd|split; [exact Hs|]].
      simpl in Hx. destruct Hx as [<-|[<-|[]]]; auto.
    + intros (d & s & Hd & Hs & Hx).
      exists (d, map snd (List.filter (fun e => String.eqb (fst e) d) (g_edges g))).
      split.
      * apply Hf. split; [apply list_elem_of_In, Hd|split; [|reflexivity]].
        intros He. apply Hrow in Hs. rewrite He in Hs. destruct Hs.
      * apply in_flat_map. exists s. split; [apply Hrow, Hs|].
        simpl. destruct Hx as [->| ->]; auto.
Qed.



(** ** The matcher's threshold *)

Lemma sublist_map {A B} (f : A -> B) (l1 l2 : list A) :
  l1 `sublist_of` l2 -> map f l1 `sublist_of` map f l2.
Proof. induction 1; simpl; constructor; assumption. Qed.

Lemma filter_sublist_mono {A} (f1 f2 : A -> bool) (l : list A) :
  (forall x, f2 x = true -> f1 x = true) -> List.filter f2 l `sublist_of` List.filter f1 l.
Proof.
  intros H. induction l as [|x l IH]; simpl; [constructor|].
  destruct (f2 x) eqn:E2.
  - rewrite (H x E2). constructor. exact IH.
  - destruct (f1 x); [constructor|]; exact IH.
Qed.

(** [diseases_by_symptoms(symptoms, min_matches)] is antitone in
    [min_matches]: raising it keeps a sub-list of the diseases, in the same
    order; any [min_matches] of at most 1 acts as 1. *)
Theorem diseases_by_symptoms_threshold (g : list disease_node) (symptoms : list string)
    (m1 m2 : Z) (Hm : (m1 <= m2)%Z) :
  diseases_by_symptoms g symptoms (Some m2) `sublist_of` diseases_by_symptoms g symptoms (Some m1) /\
  (forall m, (m <= 1)%Z -> diseases_by_symptoms g symptoms (Some m) =
                           diseases_by_symptoms g symptoms (Some 1%Z)).
Proof.
  unfold diseases_by_symptoms. destruct (sympts_of symptoms) as [|x xs]; [split; [constructor|reflexivity]|].
  split.
  - apply sublist_map, filter_sublist_mono. intros d.
    rewrite !andb_true_iff, !Z.leb_le. intros [H1 H2]. split; [exact H1|lia].
  - intros m Hle. rewrite Z.max_l by lia. reflexivity.
Qed.

Lemma diseases_by_symptoms_threshold_witness :
  (1 <= 2)%Z /\
  diseases_by_symptoms [flu; covid] ["Fever"; "Loss Of Smell"] (Some 2%Z) = ["COVID-19"] /\
  diseases_by_symptoms [flu; covid] ["Fever"; "Loss Of Smell"] (Some 1%Z) = ["Flu"; "COVID-19"] /\
  ["COVID-19"] `sublist_of` ["Flu"; "COVID-19"].
Proof.
  assert (Hm : (1 <= 2)%Z) by lia.
  destruct (diseases_by_symptoms_threshold [flu; covid] ["Fever"; "Loss Of Smell"] 1 2 Hm)
    as [Hs _].
  assert (E2 : diseases_by_symptoms [flu; covid] ["Fever"; "Loss Of Smell"] (Some 2%Z) = ["COVID-19"])
    by (vm_compute; reflexivity).
  assert (E1 : diseases_by_symptoms [flu; covid] ["Fever"; "Loss Of Smell"] (Some 1%Z) =
               ["Flu"; "COVID-19"]) by (vm_compute; reflexivity).
  split; [exact Hm|split; [exact E2|split; [exact E1|]]].
  rewrite <- E1, <- E2. exact Hs.
Defined.

(** ** The [:AuditError] fallback *)

Lemma audit_only_down_two (k : nat) (action : string) (st : store) :
  log_audit (S (S k)) audit_only_down action st =
  match log_audit k audit_only_down "QUERY_ERROR" st with
  | (Returned, st') => (Returned, st')
  | (Raised _, st') => run_ (S k) audit_only_down QAuditError st'
  end.
Proof. reflexivity. Qed.

(** [log_audit(action, ...)] when the database refuses [:Audit] records but
    accepts the [:AuditError] fallback: given at least two frames, the
    failure of the [:Audit] write re-enters [log_audit] through [_run]'s
    handler until the frames run out, and the call then returns normally
    having written exactly one [:AuditError] record and no [:Audit] record;
    [merge_symptom] then returns with its [MERGE] and that one record. *)
Theorem log_audit_error_fallback (depth : nat) (action : string) (st : store)
    (Hd : 2 <= depth) :
  log_audit depth audit_only_down action st = (Returned, st ++ [QAuditError]) /\
  merge_symptom (S depth) audit_only_down action st =
    (Returned, st ++ [QOp action; QAuditError]).
Proof.
  assert (L : forall k a st, log_audit (S (S k)) audit_only_down a st = (Returned, st ++ [QAuditError])).
  { intros k. induction k as [k IH] using (well_founded_induction lt_wf). intros a st0.
    rewrite audit_only_down_two.
    destruct k as [|[|k]].
    - reflexivity.
    - reflexivity.
    - rewrite (IH k) by lia. reflexivity. }
  destruct depth as [|[|k]]; [lia|lia|].
  split; [apply L|].
  unfold merge_symptom. cbn [run_ audit_only_down]. rewrite L, <- app_assoc. reflexivity.
Qed.

Lemma log_audit_error_fallback_witness :
  2 <= 2 /\ log_audit 2 audit_only_down "MERGE_SYMPTOM" [] = (Returned, [QAuditError]).
Proof.
  split; [lia|]. exact (proj1 (log_audit_error_fallback 2 "MERGE_SYMPTOM" [] (le_n 2))).
Defined.

(** ** The special-case key is injective *)

Lemma join_bar_app (x : string) (xs : list string) :
  xs <> [] ->
  list_ascii_of_string (join "|" (x :: xs)) =
  list_ascii_of_string x ++ "|"%char :: list_ascii_of_string (join "|" xs).
Proof.
  intros Hne. destruct xs as [|y ys]; [contradiction|].
  change (join "|" (x :: y :: ys)) with (x ++ ("|" ++ join "|" (y :: ys)))%string.
  rewrite !list_ascii_of_string_append. reflexivity.
Qed.

Lemma split_at_bar (a b c d : list ascii) :
  ~ In "|"%char a -> ~ In "|"%char c -> a ++ "|"%char :: b = c ++ "|"%char :: d -> a = c /\ b = d.
Proof.
  revert c. induction a as [|x a IH]; intros c Ha Hc E; destruct c as [|y c]; simpl in E.
  - injection E as ->. auto.
  - injection E as <- _. exfalso. apply Hc. left. reflexivity.
  - injection E as -> _. exfalso. apply Ha. left. reflexivity.
  - injection E as <- E. destruct (IH c) as [-> ->]; [intros H; apply Ha; right; exact H|
      intros H; apply Hc; right; exact H|exact E|]. auto.
Qed.

Lemma no_bar_split (a b c : list ascii) : ~ In "|"%char a -> a <> b ++ "|"%char :: c.
Proof. intros Ha E. apply Ha. rewrite E. apply in_or_app. right. left. reflexivity. Qed.

Lemma join_bar_inj (xs ys : list string) :
  Forall (fun s => s <> EmptyString /\ no_bar s) xs ->
  Forall (fun s => s <> EmptyString /\ no_bar s) ys ->
  join "|" xs = join "|" ys -> xs = ys.
Proof.
  revert ys. induction xs as [|x xs IH]; intros ys Hx Hy E.
  - destruct ys as [|y [|y' ys]]; [reflexivity| |].
    + inversion Hy as [|? ? [Hne _] _]. simpl in E. subst. contradiction.
    + exfalso. inversion Hy as [|? ? [Hne _] _].
      apply (f_equal list_ascii_of_string) in E. rewrite join_bar_app in E by discriminate.
      simpl in E. destruct (list_ascii_of_string y); discriminate.
  - inversion Hx as [|? ? [Hxe Hxb] Hxs]. subst.
    destruct ys as [|y ys].
    + exfalso. destruct xs as [|x' xs]; [simpl in E; contradiction|].
      apply (f_equal list_ascii_of_string) in E. rewrite join_bar_app in E by discriminate.
      simpl in E. destruct (list_ascii_of_string x); discriminate.
    + inversion Hy as [|? ? [Hye Hyb] Hys]. subst.
      apply (f_equal list_ascii_of_string) in E.
      destruct xs as [|x' xs]; destruct ys as [|y' ys].
      * simpl in E. f_equal. rewrite <- (string_of_list_ascii_of_string x), E.
        apply string_of_list_ascii_of_string.
      * exfalso. rewrite (join_bar_app y) in E by discriminate. simpl in E.
        exact (no_bar_split _ _ _ Hxb E).
      * exfalso. rewrite (join_bar_app x) in E by discriminate. simpl in E.
        exact (no_bar_split _ _ _ Hyb (eq_sym E)).
      * rewrite (join_bar_app x), (join_bar_app y) in E by discriminate.
        destruct (split_at_bar _ _ _ _ Hxb Hyb E) as [E1 E2].
        assert (x = y) as ->.
        { rewrite <- (string_of_list_ascii_of_string x), E1. apply string_of_list_ascii_of_string. }
        f_equal. apply IH; [exact Hxs|exact Hys|].
        rewrite <- (string_of_list_ascii_of_string (join "|" (x' :: xs))), E2.
        apply string_of_list_ascii_of_string.
Qed.

Lemma case_bar_check :
  forallb (fun c => implb (Ascii.eqb (to_upper c) "|") (Ascii.eqb c "|") &&
                    implb (Ascii.eqb (to_lower c) "|") (Ascii.eqb c "|")) all_ascii = true.
Proof. vm_compute. reflexivity. Qed.

Lemma title_no_bar (p : bool) (l : list ascii) : ~ In "|"%char l -> ~ In "|"%char (title_l p l).
Proof.
  revert p. induction l as [|c l IH]; intros p Hl; simpl; [tauto|].
  intros [H|H]; [|apply (IH (is_cased c)); [intros H'; apply Hl; right; exact H'|exact H]].
  apply Hl. left.
  pose proof case_bar_check as K. rewrite forallb_forall in K.
  specialize (K c (in_all_ascii c)). apply andb_prop in K as [K1 K2].
  destruct p; [rewrite H in K2|rewrite H in K1]; simpl in *;
    apply Ascii.eqb_eq; assumption.
Qed.

Lemma norm_clean (s : string) :
  nonblank s = true -> no_bar s -> norm s <> EmptyString /\ no_bar (norm s).
Proof.
  intros Hb Hn. split.
  - intros E. destruct (norm_idem s) as [_ H2]. rewrite E in H2. rewrite Hb in H2. discriminate.
  - unfold no_bar. rewrite norm_chars, list_ascii_of_string_of_list_ascii.
    intros H. apply title_no_bar in H; [exact H|]. intros H'. apply Hn, strip_in, H'.
Qed.

(** [_sym_key(symptoms)]: as long as no symptom contains the separator
    ["|"], two symptom lists get the same key exactly when their normalised
    symptom sets are equal; with a ["|"] inside a symptom, distinct sets can
    share a key ([["Cough|Fever"]] and [["Cough"; "Fever"]]). *)
Theorem sym_key_injective (L1 L2 : list string)
    (H : forall s, In s (L1 ++ L2) -> no_bar s) :
  (sym_key L1 = sym_key L2 <-> (forall x, x ∈ sym_set L1 <-> x ∈ sym_set L2)) /\
  (sym_key ["Cough|Fever"] = sym_key ["Cough"; "Fever"] /\
   "Cough|Fever" ∉ sym_set ["Cough"; "Fever"]).
Proof.
  split; [|split; [reflexivity|apply (bool_decide_eq_false_1 _); vm_compute; reflexivity]].
  assert (Hc : forall L, (forall s, In s L -> no_bar s) ->
             Forall (fun s => s <> EmptyString /\ no_bar s) (canonical L)).
  { intros L HL. apply List.Forall_forall. intros x Hx.
    apply in_canonical, in_sym_set in Hx as (s & Hs & Hb & ->).
    apply norm_clean; [exact Hb|apply HL, Hs]. }
  split.
  - intros E x. rewrite <- !in_canonical.
    assert (Ec : canonical L1 = canonical L2).
    { apply join_bar_inj; [apply Hc|apply Hc|exact E];
        intros s Hs; apply H, in_or_app; auto. }
    rewrite Ec. reflexivity.
  - intros E. unfold sym_key. rewrite (canonical_ext L1 L2 E). reflexivity.
Qed.

Lemma sym_key_injective_witness :
  (forall s, In s (["fever"; "Cough"] ++ ["COUGH"; " Fever "]) -> no_bar s) /\
  (forall x, x ∈ sym_set ["fever"; "Cough"] <-> x ∈ sym_set ["COUGH"; " Fever "]).
Proof.
  assert (H : forall s, In s (["fever"; "Cough"] ++ ["COUGH"; " Fever "]) -> no_bar s).
  { intros s Hs. simpl in Hs. unfold no_bar.
    repeat destruct Hs as [<-|Hs]; try destruct Hs;
      simpl; intros K; repeat (destruct K as [K|K]; [discriminate K|]); exact K. }
  split; [exact H|].
  apply (proj1 (proj1 (sym_key_injective _ _ H))). vm_compute. reflexivity.
Defined.

(** ** The store invariant *)

Lemma in_merge_name_l {A} `{EqDecision A} (l : list A) (x y : A) :
  y ∈ l -> y ∈ Graph.merge_name l x.
Proof. intros H. apply merge_name_elem. left. exact H. Qed.

Ltac wf_destruct H :=
  destruct H as (W1 & W2 & W3 & W4 & W5 & W6 & W7 & W8).

Lemma wf_merge_symptom (g : graph) (n : string) :
  well_formed g -> well_formed (Graph.merge_symptom g n).
Proof.
  intros H. wf_destruct H. unfold well_formed, Graph.merge_symptom, Graph.log_audit. simpl.
  split; [exact W1|split; [apply merge_name_NoDup, W2|]].
  split; [exact W3|split; [exact W4|split; [exact W5|split; [|split]]]].
  - intros d s He. destruct (W6 d s He). split; [assumption|apply in_merge_name_l; assumption].
  - exact W7.
  - intros k c Hk. destruct (W8 k c Hk) as [Hc1 Hc2]. split; [exact Hc1|].
    eapply Forall_impl; [exact Hc2|]. intros x. apply in_merge_name_l.
Qed.

Lemma wf_merge_disease (g : graph) (n : string) :
  well_formed g -> well_formed (Graph.merge_disease g n).
Proof.
  intros H. wf_destruct H. unfold well_formed, Graph.merge_disease, Graph.log_audit. simpl.
  split; [apply merge_name_NoDup, W1|split; [exact W2|]].
  split; [exact W3|split; [exact W4|split; [exact W5|split; [|split]]]].
  - intros d s He. destruct (W6 d s He). split; [apply in_merge_name_l; assumption|assumption].
  - intros p d v Hv. destruct (W7 p d v Hv). split; [assumption|apply in_merge_name_l; assumption].
  - exact W8.
Qed.

Lemma wf_connect (g : graph) (d s : string) :
  well_formed g -> well_formed (Graph.connect_disease_symptom g d s).
Proof.
  intros H. unfold Graph.connect_disease_symptom.
  destruct (decide (d ∈ g_diseases g)) as [Hd|Hd];
  [destruct (decide (s ∈ g_symptoms g)) as [Hs|Hs]|].
  - rewrite (bool_decide_eq_true_2 _ Hd), (bool_decide_eq_true_2 _ Hs).
    wf_destruct H. unfold well_formed, Graph.log_audit. simpl.
    split; [exact W1|split; [exact W2|split; [apply merge_name_NoDup, W3|]]].
    split; [exact W4|split; [exact W5|split; [|split; [exact W7|exact W8]]]].
    intros d' s' He. apply merge_name_elem in He as [He|[= -> ->]]; [apply W6, He|auto].
  - rewrite (bool_decide_eq_true_2 _ Hd), (bool_decide_eq_false_2 _ Hs). exact H.
  - rewrite (bool_decide_eq_false_2 _ Hd). exact H.
Qed.

Lemma wf_merge_person (g : graph) (n r : string) :
  well_formed g -> well_formed (Graph.merge_person g n r).
Proof.
  intros H. unfold Graph.merge_person.
  destruct (assoc_get (g_persons g) n) eqn:E; [exact H|].
  wf_destruct H. unfold well_formed, Graph.log_audit. simpl.
  apply assoc_get_elem in E.
  split; [exact W1|split; [exact W2|split; [exact W3|split; [|split; [exact W5|split; [exact W6|split]]]]]].
  - rewrite map_app. simpl. apply NoDup_app. split; [exact W4|split].
    + intros x Hx Hx'. apply list_elem_of_singleton in Hx'. subst. contradiction.
    + apply NoDup_singleton.
  - intros p d v Hv. destruct (W7 p d v Hv) as [Hp Hd]. split; [|exact Hd].
    rewrite map_app. apply elem_of_app. left. exact Hp.
  - exact W8.
Qed.

Lemma wf_create_diagnosis (g : graph) (p d : string) (c : Q) (ts : Z) :
  well_formed g -> well_formed (Graph.create_diagnosis g p d c ts).
Proof.
  intros H. unfold Graph.create_diagnosis.
  destruct (decide (p ∈ map fst (g_persons g))) as [Hp|Hp];
  [destruct (decide (d ∈ g_diseases g)) as [Hd|Hd]|].
  - rewrite (bool_decide_eq_true_2 _ Hp), (bool_decide_eq_true_2 _ Hd).
    wf_destruct H. unfold well_formed, Graph.log_audit. simpl.
    split; [exact W1|split; [exact W2|split; [exact W3|split; [exact W4|]]]].
    split; [apply assoc_set_NoDup, W5|split; [exact W6|split; [|exact W8]]].
    intros p' d' v Hv. apply assoc_set_entries in Hv as [Hv|[= -> ->]]; [apply (W7 _ _ _ Hv)|auto].
  - rewrite (bool_decide_eq_true_2 _ Hp), (bool_decide_eq_false_2 _ Hd). exact H.
  - rewrite (bool_decide_eq_false_2 _ Hp). exact H.
Qed.

Lemma wf_upsert_special_case (g : graph) (S : list string) (ts : Z) :
  well_formed g -> well_formed (fst (Graph.upsert_special_case g S ts)).
Proof.
  intros H. wf_destruct H. unfold Graph.upsert_special_case, well_formed, Graph.log_audit. simpl.
  do 7 (split; [assumption|]).
  intros k c Hk. destruct (decide (k = sym_key S)) as [->|Hne].
  - rewrite lookup_insert_eq in Hk. injection Hk as <-. simpl.
    unfold Graph.merged_case.
    destruct (g_cases g !! sym_key S) as [o|] eqn:Eo; simpl.
    + destruct (W8 _ _ Eo) as [Ho1 Ho2]. split; [exact Ho1|].
      apply List.Forall_forall. intros x Hx. apply list_elem_of_In in Hx.
      rewrite merge_edges_fold, fold_merge_name_elem in Hx. destruct Hx as [Hx|Hx].
      * rewrite List.Forall_forall in Ho2. apply Ho2, list_elem_of_In, Hx.
      * apply elem_of_filter_list in Hx as [_ Hx]. apply bool_decide_eq_true in Hx. exact Hx.
    + split; [reflexivity|].
      apply List.Forall_forall. intros x Hx. apply list_elem_of_In in Hx.
      rewrite merge_edges_fold, fold_merge_name_elem in Hx. destruct Hx as [Hx|Hx].
      * apply not_elem_of_nil in Hx. destruct Hx.
      * apply elem_of_filter_list in Hx as [_ Hx]. apply bool_decide_eq_true in Hx. exact Hx.
  - rewrite lookup_insert_ne in Hk by congruence. apply W8, Hk.
Qed.

Lemma wf_upsert_with_patient (g : graph) (S : list string) (p : string) (ts : Z) :
  well_formed g -> well_formed (fst (Graph.upsert_special_case_with_patient g S p ts)).
Proof.
  intros H. wf_destruct H.
  unfold Graph.upsert_special_case_with_patient, upsert_special_case_with_patient,
    well_formed, Graph.log_audit. simpl.
  assert (Hm : forall x, x ∈ g_symptoms g -> x ∈ fold_left Graph.merge_name (sym_set S) (g_symptoms g))
    by (intros x Hx; apply fold_merge_name_elem; left; exact Hx).
  split; [exact W1|split; [apply fold_merge_name_NoDup, W2|split; [exact W3|]]].
  split; [exact W4|split; [exact W5|split; [|split; [exact W7|]]]].
  - intros d s He. destruct (W6 d s He). split; [assumption|apply Hm; assumption].
  - intros k c Hk. destruct (decide (k = sym_key S)) as [->|Hne].
    + rewrite lookup_insert_eq in Hk. injection Hk as <-. simpl.
      unfold merged_bundle.
      destruct (g_cases g !! sym_key S) as [o|] eqn:Eo; simpl.
      * destruct (W8 _ _ Eo) as [Ho1 Ho2]. split; [exact Ho1|].
        apply List.Forall_forall. intros x Hx. apply list_elem_of_In in Hx.
        rewrite merge_edges_fold, fold_merge_name_elem in Hx. destruct Hx as [Hx|Hx].
        -- rewrite List.Forall_forall in Ho2. apply Hm, Ho2, list_elem_of_In, Hx.
        -- apply fold_merge_name_elem. right. exact Hx.
      * split; [reflexivity|].
        apply List.Forall_forall. intros x Hx. apply list_elem_of_In in Hx.
        rewrite merge_edges_fold, fold_merge_name_elem in Hx. destruct Hx as [Hx|Hx].
        -- apply not_elem_of_nil in Hx. destruct Hx.
        -- apply fold_merge_name_elem. right. exact Hx.
    + rewrite lookup_insert_ne in Hk by congruence. destruct (W8 k c Hk) as [Hc1 Hc2].
      split; [exact Hc1|]. eapply Forall_impl; [exact Hc2|]. exact Hm.
Qed.

Lemma wf_load (g : graph) (file : option string) (extract : string -> list (string * string)) :
  well_formed g -> well_formed (load g file extract).
Proof.
  intros H. destruct (load_nodes g file extract) as (E1 & E2 & E3 & E4 & E5 & E6).
  destruct (load_extends_graph g file extract) as (M1 & M2 & M3 & _).
  set (ps := flat_map extract (fst (read_knowledge_file g file))) in *.
  wf_destruct H. unfold well_formed.
  rewrite E1, E2, E3, E4, E5, E6.
  split; [apply fold_merge_name_NoDup, W1|].
  split; [apply fold_merge_name_NoDup, W2|].
  split; [apply fold_merge_name_NoDup, W3|].
  split; [exact W4|split; [exact W5|split; [|split]]].
  - intros d s He. rewrite <- E3 in He. rewrite <- E1, <- E2.
    apply M3 in He as [He|He].
    + destruct (W6 d s He). split; [apply M1|apply M2]; left; assumption.
    + split; [apply M1|apply M2]; right.
      * apply list_elem_of_In, in_map_iff. exists (d, s). split; [reflexivity|].
        apply list_elem_of_In, He.
      * apply list_elem_of_In, in_map_iff. exists (d, s). split; [reflexivity|].
        apply list_elem_of_In, He.
  - intros p d v Hv. destruct (W7 p d v Hv) as [Hp Hd]. split; [exact Hp|].
    rewrite <- E1. apply M1. left. exact Hd.
  - intros k c Hk. destruct (W8 k c Hk) as [Hc1 Hc2]. split; [exact Hc1|].
    eapply Forall_impl; [exact Hc2|]. intros x Hx. rewrite <- E2. apply M2. left. exact Hx.
Qed.

(** The store invariant is kept by every write operation of [neo4j_utils]
    and by [load]: from a well-formed store (the empty one, say), any
    sequence of them leaves no duplicate node, edge, person or diagnosis,
    no edge or diagnosis with a missing end, and every special case under
    its own key, linked only to existing symptoms. *)
Theorem well_formed_preserved (extract : string -> list (string * string))
    (ops : list graph_op) (g : graph) (H : well_formed g) :
  well_formed (fold_left (apply_op extract) ops g).
Proof.
  revert g H. induction ops as [|o ops IH]; intros g H; simpl; [exact H|].
  apply IH. destruct o; simpl.
  - apply wf_merge_symptom, H.
  - apply wf_merge_disease, H.
  - apply wf_connect, H.
  - apply wf_merge_person, H.
  - apply wf_create_diagnosis, H.
  - apply wf_upsert_special_case, H.
  - apply wf_upsert_with_patient, H.
  - apply wf_load, H.
Qed.

Lemma well_formed_empty : well_formed empty_graph.
Proof.
  unfold well_formed, empty_graph. cbn.
  split; [constructor|split; [constructor|split; [constructor|split; [constructor|split; [constructor|]]]]].
  split; [|split].
  - intros d s He. apply not_elem_of_nil in He. destruct He.
  - intros p d v Hv. apply not_elem_of_nil in Hv. destruct Hv.
  - intros k c Hk. rewrite lookup_empty in Hk. discriminate.
Qed.

Lemma well_formed_preserved_witness :
  well_formed empty_graph /\
  well_formed (fold_left (apply_op (fun _ => [("Flu", "Fever")]))
    [OLoad (Some "Flu causes fever"); OMergePerson "Ann" "User";
     OCreateDiagnosis "Ann" "Flu" (9 # 10) 5; OUpsertSpecialCase ["fever"; "rash"] 6;
     OUpsertWithPatient ["rash"] "Ann" 7] empty_graph).
Proof.
  split; [exact well_formed_empty|].
  exact (well_formed_preserved _ _ empty_graph well_formed_empty).
Defined.
